(** * NYU shuttle app: itinerary geometry, nearest stop and timeline layout

    A shallow embedding of the numeric and list-processing core of the
    repository:

    - [mobile/src/components/BottomSheet.tsx]: the route-option timeline
      layout ([fetchRouteOptions], [renderContent]) and
      [calculateWalkingTime];
    - [mobile/src/services/api.ts]: [getTripStops], [getStopsBetween];
    - [mobile/src/components/Map.tsx]: [fetchOSRMRoute],
      [convertPlanToSegments] and the route-loading effect;
    - [app/utils/routes.ts]: [calculateDistance], [findNearestBusStop],
      [fetchRouteFromOSRM], [generateShuttleRoute];
    - the web [Map] component ([app/components]): its route-loading
      effect.

    JavaScript numbers are kept abstract behind the class [Number] wherever
    the code only adds, multiplies, divides and compares them.  Three
    instances are given: IEEE-754 binary64 (the primitive floats, which
    are the numbers JavaScript computes with, including [Infinity] and
    [NaN]), exact rationals (the arithmetic the layout approximates, and
    one that still computes) and the real numbers.  The haversine distance
    calls [Math.sin], [Math.cos], [Math.sqrt] and [Math.atan2], which are
    kept abstract behind the class [MathLibrary]: what the code does in
    binary64 is stated for every implementation of them, and what the
    formula means is stated over the real numbers. *)

From Stdlib Require Import ZArith QArith Qminmax Lqa Lia List Bool String.
From Stdlib Require Import Floats.
From Stdlib Require Import OrdersEx Permutation Sorted.
Import ListNotations.

(** Linear arithmetic over the rationals, kept under its own name because
    the real-number version is loaded below. *)
Ltac lraQ := lra.

From Stdlib Require Import Reals Lra.

Set Implicit Arguments.

(** ** JavaScript numbers *)

Declare Scope js_scope.
Delimit Scope js_scope with js.

Class Number (num : Type) : Type := {
  ofZ : Z -> num;                    (* integer literals *)
  nadd : num -> num -> num;          (* a + b *)
  nsub : num -> num -> num;          (* a - b *)
  nmul : num -> num -> num;          (* a * b *)
  ndiv : num -> num -> num;          (* a / b *)
  nltb : num -> num -> bool;         (* a < b *)
  Math_max : num -> num -> num;      (* Math.max(a, b) *)
  Math_min : num -> num -> num;      (* Math.min(a, b) *)
  falsy : num -> bool                (* !a : true for 0 and NaN *)
}.

Notation "a + b" := (nadd a b) : js_scope.
Notation "a - b" := (nsub a b) : js_scope.
Notation "a * b" := (nmul a b) : js_scope.
Notation "a / b" := (ndiv a b) : js_scope.
Notation "a <? b" := (nltb a b) : js_scope.
Notation "a >? b" := (nltb b a) : js_scope.

(** The functions of [Math] that the distance computation calls. *)
Class MathLibrary (num : Type) : Type := {
  Math_PI : num;
  Math_sin : num -> num;
  Math_cos : num -> num;
  Math_sqrt : num -> num;
  Math_atan2 : num -> num -> num;    (* Math.atan2(y, x) *)
  Math_round : num -> num
}.

(** [a || b] on numbers. *)
Definition or_else {num} `{Number num} (a b : num) : num :=
  if falsy a then b else a.

(** *** IEEE-754 binary64 *)

Module Float64.

Definition literal (z : Z) : float :=
  match z with
  | Z0 => PrimFloat.zero
  | Zpos _ => PrimFloat.of_uint63 (Uint63.of_Z z)
  | Zneg _ => PrimFloat.opp (PrimFloat.of_uint63 (Uint63.of_Z (Z.opp z)))
  end.

(** The sign of a zero is visible through [1 / x]. *)
Definition is_neg_zero (x : float) : bool :=
  PrimFloat.eqb x PrimFloat.zero
  && PrimFloat.ltb (PrimFloat.div PrimFloat.one x) PrimFloat.zero.

(** [Math.max]: [NaN] if either argument is [NaN]; [+0] is larger than
    [-0]. *)
Definition maximum (x y : float) : float :=
  if PrimFloat.is_nan x || PrimFloat.is_nan y then PrimFloat.nan
  else if PrimFloat.ltb x y then y
  else if PrimFloat.ltb y x then x
  else if is_neg_zero x then y else x.

(** [Math.min]: [NaN] if either argument is [NaN]; [-0] is smaller than
    [+0]. *)
Definition minimum (x y : float) : float :=
  if PrimFloat.is_nan x || PrimFloat.is_nan y then PrimFloat.nan
  else if PrimFloat.ltb x y then x
  else if PrimFloat.ltb y x then y
  else if is_neg_zero x then x else y.

Definition is_falsy (x : float) : bool :=
  PrimFloat.is_nan x || PrimFloat.eqb x PrimFloat.zero.

#[export] Instance Number_float : Number float := {|
  ofZ := literal;
  nadd := PrimFloat.add;
  nsub := PrimFloat.sub;
  nmul := PrimFloat.mul;
  ndiv := PrimFloat.div;
  nltb := PrimFloat.ltb;
  Math_max := maximum;
  Math_min := minimum;
  falsy := is_falsy
|}.

End Float64.

(** *** Exact rationals

    Division by zero gives 0 here and [Infinity] or [NaN] in JavaScript:
    this instance stands for the code only where no divisor is zero. *)

Module Exact.

Definition Qltb (x y : Q) : bool := negb (Qle_bool y x).

#[export] Instance Number_Q : Number Q := {|
  ofZ := inject_Z;
  nadd := Qplus;
  nsub := Qminus;
  nmul := Qmult;
  ndiv := Qdiv;
  nltb := Qltb;
  Math_max := Qmax;
  Math_min := Qmin;
  falsy := fun x => Qeq_bool x 0
|}.

End Exact.

(** *** Real numbers

    The arithmetic that the floating-point computation approximates.
    There is no rounding, no overflow and no [NaN] here: this instance
    says what the formulas mean, not what the code returns, and the
    properties of the code in binary64 do not rest on it. *)

Module Ideal.

Definition Rltb (x y : R) : bool := if Rlt_dec x y then true else false.

Definition is_zero (x : R) : bool := if Req_dec_T x 0 then true else false.

(** The angle of the point [(x, y)], in [(-PI, PI]]. *)
Definition atan2 (y x : R) : R :=
  if Rlt_dec 0 x then atan (y / x)
  else if Rlt_dec x 0
       then if Rle_dec 0 y then atan (y / x) + PI else atan (y / x) - PI
  else if Rlt_dec 0 y then PI / 2
  else if Rlt_dec y 0 then - (PI / 2)
  else 0.

(** [Math.round]: the integer nearest to [x], halves upwards. *)
Definition round (x : R) : R := IZR (Int_part (x + 1 / 2)).

#[export] Instance Number_R : Number R := {|
  ofZ := IZR;
  nadd := Rplus;
  nsub := Rminus;
  nmul := Rmult;
  ndiv := Rdiv;
  nltb := Rltb;
  Math_max := Rmax;
  Math_min := Rmin;
  falsy := is_zero
|}.

#[export] Instance MathLibrary_R : MathLibrary R := {|
  Math_PI := PI;
  Math_sin := sin;
  Math_cos := cos;
  Math_sqrt := sqrt;
  Math_atan2 := atan2;
  Math_round := round
|}.

End Ideal.

(** ** Itineraries ([services/api.ts])

    Of a stop, a plan segment and a plan, the fields that the geometry and
    the layout read; route names and clock times are left out.  An
    optional identifier is [None] when the field is absent. *)

Inductive SegmentType := walk | transit.

Definition SegmentType_eqb (a b : SegmentType) : bool :=
  match a, b with
  | walk, walk | transit, transit => true
  | _, _ => false
  end.

Record Stop (num : Type) := {
  stop_id : Z;
  stop_name : string;
  lat : num;
  lon : num
}.

Record PlanSegment (num : Type) := {
  type : SegmentType;
  from_lat : num;
  from_lon : num;
  to_lat : num;
  to_lon : num;
  duration_minutes : num;
  from_stop_id : option Z;
  to_stop_id : option Z;
  trip_id : option Z
}.

Record Plan (num : Type) := {
  estimated_duration_minutes : num;
  segments : list (PlanSegment num)
}.

(** ** Timeline layout ([BottomSheet.tsx]) *)

Record Slot (num : Type) := {
  width : num;
  isTransit : bool;
  duration : num
}.

Section Layout.
Context {num : Type} `{Number num}.
Local Open Scope js_scope.

Definition MIN_TRANSIT_WIDTH_PERCENT : num := ofZ 15.
Definition MIN_WALK_WIDTH_PERCENT : num := ofZ 8.

(** [fetchRouteOptions]: the total duration stored with a route option.
    After [|| 0] the value is not [NaN], so [totalDuration === 0] is
    [falsy totalDuration]. *)
Definition totalDuration (plan : Plan num) : num :=
  let totalDuration := or_else (estimated_duration_minutes plan) (ofZ 0) in
  let totalDuration :=
    if falsy totalDuration && negb (Nat.eqb (List.length (segments plan)) 0)
    then fold_left
           (fun sum segment => sum + or_else (duration_minutes segment) (ofZ 0))
           (segments plan) (ofZ 0)
    else totalDuration in
  Math_max (ofZ 1) totalDuration.

(** [renderContent], the timeline of one route option.  "Guard against
    division by zero". *)
Definition safeTotalDuration (totalDuration : num) : num :=
  if totalDuration >? ofZ 0 then totalDuration else ofZ 1.

(** Step 1: true proportional widths based on duration. *)
Definition trueProportionalWidths (totalDuration : num)
    (segments : list (PlanSegment num)) : list (Slot num) :=
  map (fun segment =>
         {| width := duration_minutes segment
                     / safeTotalDuration totalDuration * ofZ 100;
            isTransit := SegmentType_eqb (type segment) transit;
            duration := duration_minutes segment |})
      segments.

(** Step 2: the smallest transit segment; [Math.min(...ws)] is only
    called with a non-empty argument list. *)
Definition smallestTransitWidth (widths : list (Slot num)) : num :=
  match map (@width num) (filter (@isTransit num) widths) with
  | [] => MIN_TRANSIT_WIDTH_PERCENT
  | w :: ws => fold_left Math_min ws w
  end.

(** Step 3: if the smallest transit width is below the minimum, the
    factor that brings it to the minimum. *)
Definition scaleFactor (smallestTransitWidth : num) : num :=
  if smallestTransitWidth <? MIN_TRANSIT_WIDTH_PERCENT
  then MIN_TRANSIT_WIDTH_PERCENT / smallestTransitWidth
  else ofZ 1.

Definition scale (k : num) (seg : Slot num) : Slot num :=
  {| width := width seg * k;
     isTransit := isTransit seg;
     duration := duration seg |}.

(** Step 4: the factor is applied to all segments. *)
Definition scaledWidths (widths : list (Slot num)) : list (Slot num) :=
  map (scale (scaleFactor (smallestTransitWidth widths))) widths.

(** Step 5: the minimum of walk segments; "transit segments are already
    at minimum or above". *)
Definition adjustedWidths (scaled : list (Slot num)) : list (Slot num) :=
  map (fun seg =>
         if negb (isTransit seg)
         then {| width := Math_max (width seg) MIN_WALK_WIDTH_PERCENT;
                 isTransit := isTransit seg;
                 duration := duration seg |}
         else seg)
      scaled.

(** Step 6: if the total exceeds 100, everything is scaled down. *)
Definition totalWidth (adjusted : list (Slot num)) : num :=
  fold_left (fun sum seg => sum + width seg) adjusted (ofZ 0).

Definition finalWidths (adjusted : list (Slot num)) : list (Slot num) :=
  if totalWidth adjusted >? ofZ 100
  then map (scale (ofZ 100 / totalWidth adjusted)) adjusted
  else adjusted.

(** The adjusted widths of a route option, before the last step. *)
Definition adjustedLayout (totalDuration : num)
    (segments : list (PlanSegment num)) : list (Slot num) :=
  adjustedWidths (scaledWidths (trueProportionalWidths totalDuration segments)).

(** The whole computation of one route option's timeline. *)
Definition layout (totalDuration : num) (segments : list (PlanSegment num))
  : list (Slot num) :=
  finalWidths (adjustedLayout totalDuration segments).

(** The timeline of a plan as [fetchRouteOptions] and [renderContent]
    produce it together. *)
Definition planLayout (plan : Plan num) : list (Slot num) :=
  layout (totalDuration plan) (segments plan).

End Layout.

Import Float64 Exact Ideal.

(** A leg of which only the class and the duration matter. *)
Definition leg {num} `{Number num} (t : SegmentType) (d : num) : PlanSegment num :=
  {| type := t; from_lat := ofZ 0; from_lon := ofZ 0; to_lat := ofZ 0;
     to_lon := ofZ 0; duration_minutes := d;
     from_stop_id := None; to_stop_id := None; trip_id := None |}.

(** ** Calls that return or throw

    An [async] function settles with a value or with an exception; [try]
    and [catch] are [attempt]. *)

Inductive Exception :=
| Error (message : string)     (* [throw new Error(message)] *)
| TypeError                    (* a property read on [undefined] *)
| Rejection.                   (* [fetch] or [response.json()] rejects *)

Inductive Completion (A : Type) :=
| Returned (value : A)
| Thrown (error : Exception).

Arguments Returned {A} value.
Arguments Thrown {A} error.

Definition bind {A B} (c : Completion A) (k : A -> Completion B) : Completion B :=
  match c with
  | Returned a => k a
  | Thrown e => Thrown e
  end.

Definition attempt {A} (body : Completion A) (handler : Exception -> Completion A)
  : Completion A :=
  match body with
  | Returned a => Returned a
  | Thrown e => handler e
  end.

Declare Scope completion_scope.
Delimit Scope completion_scope with completion.
Notation "x <- c ;; k" := (bind c (fun x => k))
  (at level 61, c at next level, right associativity) : completion_scope.

(** What [fetch(url)] followed by [response.json()] can give: the request
    is rejected, or a response arrives with its [ok] flag, its status and a
    body that parses ([Some]) or not ([None]). *)
Inductive HttpResult (body : Type) :=
| Unreachable
| Response (ok : bool) (status : Z) (json : option body).

Arguments Unreachable {body}.
Arguments Response {body} ok status json.

(** ** Array helpers *)

(** [xs.findIndex(p)], [-1] when no element satisfies [p]. *)
Fixpoint findIndex {A} (p : A -> bool) (xs : list A) : Z :=
  match xs with
  | [] => -1
  | x :: rest =>
      if p x then 0
      else let i := findIndex p rest in
           if (i =? -1)%Z then -1 else (i + 1)%Z
  end.

(** [xs.slice(start, end)] with JavaScript's treatment of negative and
    out-of-range bounds. *)
Definition slice {A} (xs : list A) (start end_ : Z) : list A :=
  let len := Z.of_nat (List.length xs) in
  let k := if (start <? 0)%Z then Z.max (len + start) 0 else Z.min start len in
  let final := if (end_ <? 0)%Z then Z.max (len + end_) 0 else Z.min end_ len in
  firstn (Z.to_nat (final - k)) (skipn (Z.to_nat k) xs).

(** [xs.slice(1)] *)
Definition slice1 {A} (xs : list A) : list A := skipn 1 xs.

(** [[a, b].filter(Boolean)] on values that may be [undefined]. *)
Fixpoint filter_Boolean {A} (xs : list (option A)) : list A :=
  match xs with
  | [] => []
  | Some x :: rest => x :: filter_Boolean rest
  | None :: rest => filter_Boolean rest
  end.

(** ** Per-trip stop listing ([services/api.ts]) *)

Section TripStops.
Variable num : Type.
Local Open Scope completion_scope.

(** The body of [GET /v1/trips/:id/stops]: its [stops] field, [None] when
    it is missing. *)
Definition TripStopsApi := Z -> HttpResult (option (list (Stop num))).

Variable api : TripStopsApi.

Definition getTripStops (tripId : Z) : Completion (list (Stop num)) :=
  attempt
    (match api tripId with
     | Unreachable => Thrown Rejection
     | Response ok _ json =>
         if negb ok then Returned []
         else match json with
              | None => Thrown Rejection
              | Some data_stops =>
                  Returned (match data_stops with
                            | Some stops => stops
                            | None => []
                            end)
              end
     end)
    (fun _ => Returned []).

Definition has_stop_id (id : Z) (s : Stop num) : bool := (stop_id s =? id)%Z.

(** The fallback of [getStopsBetween]: the two end stops that the catalog
    knows. *)
Definition endpointStops (fromStopId toStopId : Z) (allStops : list (Stop num))
  : list (Stop num) :=
  let fromStop := find (has_stop_id fromStopId) allStops in
  let toStop := find (has_stop_id toStopId) allStops in
  filter_Boolean [fromStop; toStop].

Definition getStopsBetween (tripId fromStopId toStopId : Z)
    (allStops : list (Stop num)) : Completion (list (Stop num)) :=
  attempt
    (tripStops <- getTripStops tripId ;;
     if Nat.eqb (List.length tripStops) 0
     then Returned (endpointStops fromStopId toStopId allStops)
     else
       let fromIndex := findIndex (has_stop_id fromStopId) tripStops in
       let toIndex := findIndex (has_stop_id toStopId) tripStops in
       if (fromIndex =? -1)%Z || (toIndex =? -1)%Z
       then Returned (endpointStops fromStopId toStopId allStops)
       else if (fromIndex <=? toIndex)%Z
       then Returned (slice tripStops fromIndex (toIndex + 1))
       else Returned (rev (slice tripStops toIndex (fromIndex + 1))))
    (fun _ => Returned (endpointStops fromStopId toStopId allStops)).

End TripStops.

(** ** Road geometry ([Map.tsx], [utils/routes.ts]) *)

Record LatLng (num : Type) := {
  latitude : num;
  longitude : num
}.

(** One route of an OSRM answer: its [geometry.coordinates], a list of
    [[lng, lat]] pairs, [None] when the field is missing. *)
Record OsrmRoute (num : Type) := {
  coordinates : option (list (num * num))
}.

Record OsrmData (num : Type) := {
  code : string;
  routes : option (list (OsrmRoute num))
}.

Record RouteSegment (num : Type) := {
  points : list (LatLng num);
  color : string;
  isDashed : bool
}.

Section RoadGeometry.
Variable num : Type.
Local Open Scope completion_scope.

(** The routing service, asked with the four numbers in the order of the
    URL: [fromLon, fromLat; toLon, toLat]. *)
Definition OsrmService := num -> num -> num -> num -> HttpResult (OsrmData num).

Variable osrm : OsrmService.

(** The checks on the answer that both clients share; [convert] turns one
    [[lng, lat]] pair into a point. *)
Definition osrmCoordinates {P} (convert : num * num -> P)
    (response : HttpResult (OsrmData num)) : Completion (list P) :=
  match response with
  | Unreachable => Thrown Rejection
  | Response ok _ json =>
      if negb ok then Thrown (Error "OSRM API error")
      else
        data <- match json with
                | Some data => Returned data
                | None => Thrown Rejection
                end ;;
        if negb (String.eqb (code data) "Ok")
           || match routes data with Some (_ :: _) => false | _ => true end
        then Thrown (Error "No route found")
        else
          (* [data.routes[0].geometry.coordinates] *)
          match routes data with
          | Some (route :: _) =>
              match coordinates route with
              | Some coords => Returned (map convert coords)
              | None => Thrown TypeError
              end
          | _ => Thrown TypeError
          end
  end.

(** [Map.tsx] *)
Definition fetchOSRMRoute (fromLat fromLon toLat toLon : num)
  : Completion (list (LatLng num)) :=
  attempt
    (osrmCoordinates
       (fun '(lng, lat) => {| latitude := lat; longitude := lng |})
       (osrm fromLon fromLat toLon toLat))
    (fun _ => Returned [ {| latitude := fromLat; longitude := fromLon |};
                         {| latitude := toLat; longitude := toLon |} ]).

(** [utils/routes.ts]; a [RoutePoint] is the pair [[lat, lng]]. *)
Definition fetchRouteFromOSRM (start end_ : num * num)
  : Completion (list (num * num)) :=
  let '(startLat, startLng) := start in
  let '(endLat, endLng) := end_ in
  attempt
    (osrmCoordinates (fun '(lng, lat) => (lat, lng))
       (osrm startLng startLat endLng endLat))
    (fun _ => Returned [ (startLat, startLng); (endLat, endLng) ]).

(** The inner loop of [convertPlanToSegments] over the consecutive stops of
    a transit leg; [i] is the loop index and [allPoints] the array filled
    so far. *)
Fixpoint stitchStops (i : nat) (routeStops : list (Stop num))
    (allPoints : list (LatLng num)) : Completion (list (LatLng num)) :=
  match routeStops with
  | fromStop :: ((toStop :: _) as rest) =>
      segmentPoints <- fetchOSRMRoute (lat fromStop) (lon fromStop)
                                      (lat toStop) (lon toStop) ;;
      stitchStops (S i) rest
        (allPoints ++ (if Nat.eqb i 0 then segmentPoints
                       else slice1 segmentPoints))
  | _ => Returned allPoints
  end.

Variable api : TripStopsApi num.

(** [segment.trip_id && segment.from_stop_id && segment.to_stop_id] *)
Definition truthy_id (id : option Z) : option Z :=
  match id with
  | Some z => if (z =? 0)%Z then None else Some z
  | None => None
  end.

Definition walkingSegment (points : list (LatLng num)) : RouteSegment num :=
  {| points := points; color := "#6b7280"; isDashed := true |}.

Definition transitSegment (points : list (LatLng num)) : RouteSegment num :=
  {| points := points; color := "#3b82f6"; isDashed := false |}.

Definition directRoute (segment : PlanSegment num)
  : Completion (list (LatLng num)) :=
  fetchOSRMRoute (from_lat segment) (from_lon segment)
                 (to_lat segment) (to_lon segment).

(** One turn of the loop of [convertPlanToSegments]: the segments pushed so
    far and the next leg. *)
Definition convertSegment (stops : list (Stop num))
    (segments : list (RouteSegment num)) (segment : PlanSegment num)
  : Completion (list (RouteSegment num)) :=
  match type segment with
  | walk =>
      points <- directRoute segment ;;
      Returned (segments ++ [walkingSegment points])
  | transit =>
      attempt
        (match truthy_id (trip_id segment), truthy_id (from_stop_id segment),
               truthy_id (to_stop_id segment) with
         | Some tripId, Some fromStopId, Some toStopId =>
             routeStops <- getStopsBetween api tripId fromStopId toStopId stops ;;
             if (2 <=? List.length routeStops)%nat
             then
               allPoints <- stitchStops 0 routeStops [] ;;
               Returned (segments ++ [transitSegment allPoints])
             else
               points <- directRoute segment ;;
               Returned (segments ++ [transitSegment points])
         | _, _, _ =>
             points <- directRoute segment ;;
             Returned (segments ++ [transitSegment points])
         end)
        (fun _ =>
           points <- directRoute segment ;;
           Returned (segments ++ [transitSegment points]))
  end.

Fixpoint convertSegments (stops : list (Stop num))
    (segments : list (RouteSegment num)) (rest : list (PlanSegment num))
  : Completion (list (RouteSegment num)) :=
  match rest with
  | [] => Returned segments
  | segment :: rest' =>
      segments' <- convertSegment stops segments segment ;;
      convertSegments stops segments' rest'
  end.

Definition convertPlanToSegments (stops : list (Stop num)) (plan : Plan num)
  : Completion (list (RouteSegment num)) :=
  convertSegments stops [] (segments plan).

End RoadGeometry.

(** ** Nearest stop and shuttle route ([utils/routes.ts], [types/locations.ts]) *)

Module Routes.

Record Location (num : Type) := {
  id : string;
  name : string;
  lat : num;
  lng : num
}.

(** A [BusStop] is a [Location] whose [type] is the constant
    ['bus-stop']. *)
Definition BusStop := Location.

Record RouteSegment (num : Type) := {
  points : list (num * num);      (* [RoutePoint[]], each [[lat, lng]] *)
  color : string
}.

Section Nearest.
Context {num : Type} `{Number num} `{MathLibrary num}.
Local Open Scope js_scope.
Local Open Scope completion_scope.

(** The catalog of [types/locations.ts]. *)
Definition BUS_STOPS : list (BusStop num) :=
  [ {| id := "wash-square-stop-1"; name := "Washington Square Stop";
       lat := ofZ 407305 / ofZ 10000; lng := ofZ (-739975) / ofZ 10000 |};
    {| id := "wash-square-stop-2"; name := "Washington Square North Stop";
       lat := ofZ 407320 / ofZ 10000; lng := ofZ (-739965) / ofZ 10000 |};
    {| id := "brooklyn-tandon-stop-1"; name := "Tandon School Stop";
       lat := ofZ 406945 / ofZ 10000; lng := ofZ (-739870) / ofZ 10000 |};
    {| id := "brooklyn-tandon-stop-2"; name := "Tandon MetroTech Stop";
       lat := ofZ 406930 / ofZ 10000; lng := ofZ (-739855) / ofZ 10000 |} ].

Definition calculateDistance (point1 point2 : num * num) : num :=
  let '(lat1, lng1) := point1 in
  let '(lat2, lng2) := point2 in
  let R := ofZ 6371 in
  let dLat := ((lat2 - lat1) * Math_PI) / ofZ 180 in
  let dLng := ((lng2 - lng1) * Math_PI) / ofZ 180 in
  let a :=
    Math_sin (dLat / ofZ 2) * Math_sin (dLat / ofZ 2) +
    Math_cos ((lat1 * Math_PI) / ofZ 180) *
      Math_cos ((lat2 * Math_PI) / ofZ 180) *
      Math_sin (dLng / ofZ 2) *
      Math_sin (dLng / ofZ 2) in
  let c := ofZ 2 * Math_atan2 (Math_sqrt a) (Math_sqrt (ofZ 1 - a)) in
  R * c.

(** The loop of [findNearestBusStop]: the nearest stop and its distance so
    far, and the next stop. *)
Definition nearer (userLocation : num * num)
    (best : BusStop num * num) (stop : BusStop num) : BusStop num * num :=
  let '(nearestStop, minDistance) := best in
  let distance := calculateDistance userLocation (lat stop, lng stop) in
  if distance <? minDistance then (stop, distance)
  else (nearestStop, minDistance).

(** The catalog is the module constant [BUS_STOPS] in the source; it is an
    argument here.  With an empty catalog [BUS_STOPS[0]] is [undefined]
    and reading its [lat] throws. *)
Definition findNearestBusStop (catalog : list (BusStop num))
    (userLocation : num * num) : Completion (BusStop num) :=
  match catalog with
  | [] => Thrown TypeError
  | first :: _ =>
      let nearestStop := first in
      let minDistance :=
        calculateDistance userLocation (lat nearestStop, lng nearestStop) in
      Returned (fst (fold_left (nearer userLocation) catalog
                               (nearestStop, minDistance)))
  end.

Definition getRouteColor (destinationId : string) : string :=
  if String.eqb destinationId "bern-dibner" then "#8b5cf6"
  else if String.eqb destinationId "paulson-center" then "#10b981"
  else if String.eqb destinationId "washington-square" then "#f59e0b"
  else "#3b82f6".

Definition generateShuttleRoute (osrm : OsrmService num)
    (catalog : list (BusStop num)) (userLocation : num * num)
    (destination : Location num) : Completion (list (RouteSegment num)) :=
  nearestStop <- findNearestBusStop catalog userLocation ;;
  let routeColor := getRouteColor (id destination) in
  segment1 <- fetchRouteFromOSRM osrm userLocation
                (lat nearestStop, lng nearestStop) ;;
  segment2 <- fetchRouteFromOSRM osrm (lat nearestStop, lng nearestStop)
                (lat destination, lng destination) ;;
  Returned [ {| points := segment1; color := "#6b7280" |};
             {| points := segment2; color := routeColor |} ].

End Nearest.

End Routes.

(** ** Walking time ([BottomSheet.tsx]) *)

Section WalkingTime.
Context {num : Type} `{Number num} `{MathLibrary num}.
Local Open Scope js_scope.

(** The [distance] that [calculateWalkingTime] computes, in metres. *)
Definition walkingDistance (lat1 lon1 lat2 lon2 : num) : num :=
  let R := ofZ 6371000 in
  let phi1 := (lat1 * Math_PI) / ofZ 180 in
  let phi2 := (lat2 * Math_PI) / ofZ 180 in
  let dphi := ((lat2 - lat1) * Math_PI) / ofZ 180 in
  let dlambda := ((lon2 - lon1) * Math_PI) / ofZ 180 in
  let a :=
    Math_sin (dphi / ofZ 2) * Math_sin (dphi / ofZ 2) +
    Math_cos phi1 * Math_cos phi2
      * Math_sin (dlambda / ofZ 2) * Math_sin (dlambda / ofZ 2) in
  let c := ofZ 2 * Math_atan2 (Math_sqrt a) (Math_sqrt (ofZ 1 - a)) in
  R * c.

Definition calculateWalkingTime (lat1 lon1 lat2 lon2 : num) : num :=
  let distance := walkingDistance lat1 lon1 lat2 lon2 in
  let walkingSpeedMetersPerMinute := ofZ 80 in
  Math_round (distance / walkingSpeedMetersPerMinute).

End WalkingTime.

(** The quantity [a] of the haversine formula, as [calculateDistance] and
    [calculateWalkingTime] compute it, operation by operation. *)
Definition haversineTerm {num} `{Number num} `{MathLibrary num}
    (lat1 lng1 lat2 lng2 : num) : num :=
  (let dLat := ((lat2 - lat1) * Math_PI) / ofZ 180 in
   let dLng := ((lng2 - lng1) * Math_PI) / ofZ 180 in
   Math_sin (dLat / ofZ 2) * Math_sin (dLat / ofZ 2) +
   Math_cos ((lat1 * Math_PI) / ofZ 180) *
     Math_cos ((lat2 * Math_PI) / ofZ 180) *
     Math_sin (dLng / ofZ 2) *
     Math_sin (dLng / ofZ 2))%js.

(** ** A run of [Math] in binary64

    ECMAScript leaves the accuracy of [Math.sin] and [Math.cos] to the
    implementation and fixes their results at a few arguments.
    [Observed.Math] answers the calls that the runs of the properties
    make: at zero and at [NaN] as ECMAScript requires, and elsewhere with
    the doubles nearest to the exact values, which are the values that V8
    and glibc return at these arguments.  [Math.sqrt] is the IEEE square
    root.  A call that is not listed is answered with [NaN]. *)

Module Observed.

Definition known (calls : list (float * float)) (x : float) : float :=
  match find (fun call => PrimFloat.eqb (fst call) x) calls with
  | Some call => snd call
  | None => PrimFloat.nan
  end.

(** [Math.sin(0)] is 0. *)
Definition sin (x : float) : float :=
  if PrimFloat.eqb x 0 then x
  else known [ (0x1.acee9f37bebd5p-3, 0x1.a9cd9ac4258f5p-3);
                   (* sin 0.20943951023931953 = 0.20791169081775931 *)
               (-0x1.acee9f37bebd5p-3, -0x1.a9cd9ac4258f5p-3);
               (0x1.921fb54442d18p+0, 1);
                   (* sin 1.5707963267948966 = 1 *)
               (-0x1.921fb54442d18p+0, -1);
               (0x1.6bf8a374cca51p-1, 0x1.4e14ba4888eeap-1) ]%float x.
                   (* sin 0.7108813362195382 = 0.6525018895667618 *)

(** [Math.cos(0)] is 1. *)
Definition cos (x : float) : float :=
  if PrimFloat.eqb x 0 then 1%float
  else known [ (0x1.acee9f37bebd5p-3, 0x1.f4cfc327a008p-1);
                   (* cos 0.20943951023931953 = 0.9781476007338057 *)
               (-0x1.acee9f37bebd5p-3, 0x1.f4cfc327a008p-1);
               (-0x1.6bf8a3a1c6b41p-1, 0x1.83fcab7f069c5p-1);
                   (* cos -0.7108813414555258 = 0.7577870934067553 *)
               (0x1.6bf8a347d295fp-1, 0x1.83fcabb9b8804p-1) ]%float x.
                   (* cos 0.7108813309835503 = 0.7577871002397392 *)

(** [Math.atan2(y, x)] is [NaN] when either argument is, and [y] when
    [y] is zero and [x] above zero. *)
Definition atan2 (y x : float) : float :=
  if PrimFloat.is_nan y || PrimFloat.is_nan x then PrimFloat.nan
  else if PrimFloat.eqb y 0 && PrimFloat.ltb 0 x then y
  else PrimFloat.nan.

(** [Math.round] of [NaN] is [NaN], and of zero is zero. *)
Definition round (x : float) : float :=
  if PrimFloat.is_nan x then PrimFloat.nan
  else if PrimFloat.eqb x 0 then x
  else PrimFloat.nan.

Definition Math : MathLibrary float := {|
  Math_PI := 0x1.921fb54442d18p+1%float;       (* 3.141592653589793 *)
  Math_sin := sin;
  Math_cos := cos;
  Math_sqrt := PrimFloat.sqrt;
  Math_atan2 := atan2;
  Math_round := round
|}.

End Observed.

(** ** The route-loading effects of the two [Map] components

    The components run on one event loop.  Two things happen to the
    route-loading effect: React runs it again because a dependency changed
    ([Render], with the itinerary then selected, if any), and the
    asynchronous computation started by an earlier run settles ([Settle],
    with what it settled with).  Every run that starts a computation gets
    the next number.  Only [routeSegments] and [isLoadingRoute] are kept
    of the component state; the map region is left out. *)

Section RouteEffects.
Variable Request : Type.       (* what is resolved: a plan, or a pair of places *)
Variable Segment : Type.       (* a displayed segment *)

Inductive Event :=
| Render (selected : option Request)
| Settle (run : nat) (outcome : Completion (list Segment)).

(** A computation in flight and the [cancelled] variable of the effect run
    that started it. *)
Record Pending := {
  run_id : nat;
  cancelled : bool
}.

Record MapState := {
  routeSegments : list Segment;
  isLoadingRoute : bool;
  pending : list Pending;
  cleanup : option nat;     (* the run whose [cancelled] the last cleanup sets *)
  nextRun : nat
}.

Definition initial : MapState :=
  {| routeSegments := []; isLoadingRoute := false; pending := [];
     cleanup := None; nextRun := 0 |}.

Definition in_flight (run : nat) (ps : list Pending) : option Pending :=
  find (fun p => Nat.eqb (run_id p) run) ps.

Definition drop_run (run : nat) (ps : list Pending) : list Pending :=
  filter (fun p => negb (Nat.eqb (run_id p) run)) ps.

(** [cancelled = true] in the closure of run [run]. *)
Definition cancel (run : option nat) (ps : list Pending) : list Pending :=
  match run with
  | None => ps
  | Some r =>
      map (fun p => if Nat.eqb (run_id p) r
                    then {| run_id := run_id p; cancelled := true |}
                    else p) ps
  end.

(** *** The mobile component ([mobile/src/components/Map.tsx]) *)

Definition mobile_step (s : MapState) (e : Event) : MapState :=
  match e with
  | Render selectedRoute =>
      (* the cleanup of the previous run, then the body of the effect *)
      let ps := cancel (cleanup s) (pending s) in
      match selectedRoute with
      | Some _ =>
          {| routeSegments := routeSegments s;
             isLoadingRoute := true;
             pending := ps ++ [ {| run_id := nextRun s; cancelled := false |} ];
             cleanup := Some (nextRun s);
             nextRun := S (nextRun s) |}
      | None =>
          {| routeSegments := [];
             isLoadingRoute := isLoadingRoute s;
             pending := ps;
             cleanup := None;
             nextRun := nextRun s |}
      end
  | Settle run outcome =>
      match in_flight run (pending s) with
      | None => s
      | Some p =>
          if negb (cancelled p)
          then {| routeSegments := match outcome with
                                   | Returned segments => segments
                                   | Thrown _ => []
                                   end;
                  isLoadingRoute := false;
                  pending := drop_run run (pending s);
                  cleanup := cleanup s;
                  nextRun := nextRun s |}
          else {| routeSegments := routeSegments s;
                  isLoadingRoute := isLoadingRoute s;
                  pending := drop_run run (pending s);
                  cleanup := cleanup s;
                  nextRun := nextRun s |}
      end
  end.

(** *** The web component ([app/components/Map.tsx])

    The effect returns no cleanup and its [then] and [catch] callbacks
    test nothing. *)

Definition web_step (s : MapState) (e : Event) : MapState :=
  match e with
  | Render selected =>
      match selected with
      | Some _ =>
          {| routeSegments := routeSegments s;
             isLoadingRoute := true;
             pending := pending s ++ [ {| run_id := nextRun s; cancelled := false |} ];
             cleanup := None;
             nextRun := S (nextRun s) |}
      | None =>
          {| routeSegments := [];
             isLoadingRoute := isLoadingRoute s;
             pending := pending s;
             cleanup := None;
             nextRun := nextRun s |}
      end
  | Settle run outcome =>
      match in_flight run (pending s) with
      | None => s
      | Some _ =>
          {| routeSegments := match outcome with
                              | Returned segments => segments
                              | Thrown _ => []
                              end;
             isLoadingRoute := false;
             pending := drop_run run (pending s);
             cleanup := cleanup s;
             nextRun := nextRun s |}
      end
  end.

(** The state after a sequence of events. *)
Definition after (step : MapState -> Event -> MapState) (events : list Event)
  : MapState :=
  fold_left step events initial.

End RouteEffects.

(** ** Vocabulary of the properties *)

Section StitchingSpec.
Variable num : Type.
Variable osrm : OsrmService num.

(** The geometry fetched between two consecutive stops. *)
Definition roadPoints (a b : Stop num) : list (LatLng num) :=
  match fetchOSRMRoute osrm (lat a) (lon a) (lat b) (lon b) with
  | Returned pts => pts
  | Thrown _ => []
  end.

(** The sub-polylines of a stop sequence, one per pair of consecutive
    stops. *)
Fixpoint subPolylines (routeStops : list (Stop num)) : list (list (LatLng num)) :=
  match routeStops with
  | a :: ((b :: _) as rest) => roadPoints a b :: subPolylines rest
  | _ => []
  end.

(** The concatenation the specification asks for: every sub-polyline
    after the first one loses its first point. *)
Definition stitched (subs : list (list (LatLng num))) : list (LatLng num) :=
  match subs with
  | [] => []
  | first :: others => first ++ List.concat (map (skipn 1) others)
  end.

End StitchingSpec.

Section StopWindowSpec.
Variable num : Type.

(** The listing [getStopsBetween] works on: what [getTripStops] settles
    with. *)
Definition tripListing (api : TripStopsApi num) (tripId : Z) : list (Stop num) :=
  match getTripStops api tripId with
  | Returned stops => stops
  | Thrown _ => []
  end.

(** The point of a stop. *)
Definition stopPoint (s : Stop num) : LatLng num :=
  {| latitude := lat s; longitude := lon s |}.

(** A polyline that starts at [p] and ends at [q]. *)
Definition connects (p q : LatLng num) (pts : list (LatLng num)) : Prop :=
  exists mid, pts = p :: mid ++ [q].

(** A routing service whose geometry starts and ends at the requested
    stops, as the straight-line fallback does. *)
Definition endpointFaithful (osrm : OsrmService num) : Prop :=
  forall a b : Stop num, connects (stopPoint a) (stopPoint b) (roadPoints osrm a b).

(** The lookup behind [getTripStops] failed: no answer, a status that is
    not a success, a body that does not parse, or no [stops] field. *)
Definition lookupFailed (r : HttpResult (option (list (Stop num)))) : bool :=
  match r with
  | Unreachable => true
  | Response ok _ json =>
      negb ok || match json with
                 | Some (Some _) => false
                 | _ => true
                 end
  end.

(** The stops that an answer of the per-trip endpoint lists: the [stops]
    field of a successful answer, and none otherwise. *)
Definition listedStops (r : HttpResult (option (list (Stop num))))
  : list (Stop num) :=
  match r with
  | Response true _ (Some (Some stops)) => stops
  | _ => []
  end.

(** Those of the two end stops that the catalog knows, the origin
    first. *)
Definition knownEndpoints (fromStopId toStopId : Z) (allStops : list (Stop num))
  : list (Stop num) :=
  match find (fun s => (stop_id s =? fromStopId)%Z) allStops,
        find (fun s => (stop_id s =? toStopId)%Z) allStops with
  | Some fromStop, Some toStop => [fromStop; toStop]
  | Some fromStop, None => [fromStop]
  | None, Some toStop => [toStop]
  | None, None => []
  end.

(** No stop of the list has the identifier. *)
Definition absent (id : Z) (stops : list (Stop num)) : Prop :=
  Forall (fun s => stop_id s <> id) stops.

End StopWindowSpec.

Section RouteUnavailableSpec.
Variable num : Type.

(** The road-routing call failed: no answer, a status that is not a
    success, a body that does not parse, a [code] other than ["Ok"], a
    missing or empty route list, or a first route without geometry. *)
Definition routeUnavailable (r : HttpResult (OsrmData num)) : bool :=
  match r with
  | Unreachable => true
  | Response ok _ json =>
      negb ok
      || match json with
         | None => true
         | Some data =>
             negb (String.eqb (code data) "Ok")
             || match routes data with
                | None | Some [] => true
                | Some (route :: _) =>
                    match coordinates route with
                    | None => true
                    | Some _ => false
                    end
                end
         end
  end.

End RouteUnavailableSpec.

(** The quantity [a] of the haversine formula, as both functions compute
    it. *)
Definition hav (lat1 lng1 lat2 lng2 : R) : R :=
  (
  sin ((lat2 - lat1) * PI / 180 / 2) * sin ((lat2 - lat1) * PI / 180 / 2)
  + cos (lat1 * PI / 180) * cos (lat2 * PI / 180)
    * sin ((lng2 - lng1) * PI / 180 / 2) * sin ((lng2 - lng1) * PI / 180 / 2)
  )%R.


(** Degrees as radians. *)
Definition radians (degrees : R) : R := (degrees * PI / 180)%R.

(** The great-circle distance in kilometres between two places given in
    degrees, by the haversine formula [2 r asin (sqrt a)] over the real
    numbers. *)
Definition haversine (p q : R * R) : R :=
  (let '(lat1, lng1) := p in
   let '(lat2, lng2) := q in
   let a := (sin ((radians lat2 - radians lat1) / 2))²
            + cos (radians lat1) * cos (radians lat2)
              * (sin ((radians lng2 - radians lng1) / 2))² in
   2 * 6371 * asin (sqrt a))%R.

(** The place of a stop. *)
Definition position {num} (stop : Routes.BusStop num) : num * num :=
  (Routes.lat stop, Routes.lng stop).

(** The distance from the user to a stop, as [findNearestBusStop] computes
    it. *)
Definition distanceTo {num} `{Number num} `{MathLibrary num}
    (userLocation : num * num) (stop : Routes.BusStop num) : num :=
  Routes.calculateDistance userLocation (Routes.lat stop, Routes.lng stop).

(** The catalog and the query point of the example of the nearest-stop
    property. *)
Definition stopA : Routes.BusStop R :=
  {| Routes.id := "A"; Routes.name := "A"; Routes.lat := 0%R; Routes.lng := 0%R |}.

Definition stopB : Routes.BusStop R :=
  {| Routes.id := "B"; Routes.name := "B";
     Routes.lat := 0%R; Routes.lng := (1 / 1000)%R |}.

(** The first and the last stop of [BUS_STOPS], and a user near the
    antipode of the first: [[-40.7305006, 106.0025]]. *)
Definition washingtonSquareStop {num} `{Number num} : Routes.BusStop num :=
  {| Routes.id := "wash-square-stop-1"; Routes.name := "Washington Square Stop";
     Routes.lat := (ofZ 407305 / ofZ 10000)%js;
     Routes.lng := (ofZ (-739975) / ofZ 10000)%js |}.

Definition metroTechStop {num} `{Number num} : Routes.BusStop num :=
  {| Routes.id := "brooklyn-tandon-stop-2"; Routes.name := "Tandon MetroTech Stop";
     Routes.lat := (ofZ 406930 / ofZ 10000)%js;
     Routes.lng := (ofZ (-739855) / ofZ 10000)%js |}.

Definition userNearAntipode {num} `{Number num} : num * num :=
  (ofZ (-407305006) / ofZ 10000000, ofZ 1060025 / ofZ 10000)%js.

Section StaleSpec.
Variable Segment : Type.

(** Every computation in flight whose effect run is not the last one has
    its [cancelled] set. *)
Definition cancelled_unless_current (s : MapState Segment) : Prop :=
  forall p, In p (pending s) -> cancelled p = false ->
            cleanup s = Some (run_id p).

(** Run [run] was started and every computation of that run still in
    flight has its [cancelled] set. *)
Definition stale (run : nat) (s : MapState Segment) : Prop :=
  (run < nextRun s)%nat /\
  forall p, In p (pending s) -> run_id p = run -> cancelled p = true.

End StaleSpec.

(** ** A three-stop trip

    Stops at [(0, 0)], [(0, 2)] and [(0, 3)], listed by trip 7 in that
    order; a routing service that answers with the road geometry
    [(0,0), (0,1), (0,2)] from the first stop and [(0,2), (0,3)] from the
    second one; and a routing service that cannot be reached. *)

Definition stop0 : Stop Q :=
  {| stop_id := 1; stop_name := "First"; lat := 0; lon := 0 |}.
Definition stop1 : Stop Q :=
  {| stop_id := 2; stop_name := "Second"; lat := 0; lon := 2 |}.
Definition stop2 : Stop Q :=
  {| stop_id := 3; stop_name := "Third"; lat := 0; lon := 3 |}.

Definition point (latitude longitude : Q) : LatLng Q :=
  {| latitude := latitude; longitude := longitude |}.

Definition tripApi : TripStopsApi Q :=
  fun tripId =>
    if (tripId =? 7)%Z then Response true 200 (Some (Some [stop0; stop1; stop2]))
    else Response false 404 None.

Definition roadService : OsrmService Q :=
  fun fromLon fromLat toLon toLat =>
    Response true 200
      (Some {| code := "Ok";
               routes := Some [ {| coordinates :=
                                     Some (if Qeq_bool fromLon 0
                                           then [(0, 0); (1, 0); (2, 0)]
                                           else [(2, 0); (3, 0)]) |} ] |}).

Definition unreachable : OsrmService Q :=
  fun _ _ _ _ => Unreachable.




(** ** Vocabulary of the further properties *)

Section GeometrySpec.
Variable num : Type.

(** The coordinates that the clients read from an answer:
    [data.routes[0].geometry.coordinates]. *)
Definition firstRouteCoordinates (r : HttpResult (OsrmData num))
  : option (list (num * num)) :=
  match r with
  | Response _ _ (Some data) =>
      match routes data with
      | Some (route :: _) => coordinates route
      | _ => None
      end
  | _ => None
  end.

(** A [RoutePoint] of the web client as a point of the mobile client. *)
Definition toLatLng (p : num * num) : LatLng num :=
  {| latitude := fst p; longitude := snd p |}.

(** The colour of a displayed segment of the mobile map. *)
Definition segmentColor (segment : PlanSegment num) : string :=
  match type segment with
  | walk => "#6b7280"
  | transit => "#3b82f6"
  end.

End GeometrySpec.

Section EffectSpec.
Variable Request : Type.
Variable Segment : Type.

(** The runs in flight were all started: their numbers are below the
    next one. *)
Definition runs_started (s : MapState Segment) : Prop :=
  forall p, In p (pending s) -> (run_id p < nextRun s)%nat.

(** Run [run] is the latest run of the effect, its computation is in
    flight and its [cancelled] is not set. *)
Definition current (run : nat) (s : MapState Segment) : Prop :=
  cleanup s = Some run /\
  exists p, in_flight run (pending s) = Some p /\ cancelled p = false.

(** The settling of a run other than [run]. *)
Definition settles_another (run : nat) (e : Event Request Segment) : Prop :=
  match e with
  | Settle _ r _ => r <> run
  | Render _ _ => False
  end.

(** What a settled computation asks to display. *)
Definition displayed (outcome : Completion (list Segment)) : list Segment :=
  match outcome with
  | Returned segments => segments
  | Thrown _ => []
  end.

End EffectSpec.

(** The sum of the durations of the legs. *)
Definition sumDurations (segs : list (PlanSegment Q)) : Q :=
  fold_right Qplus 0%Q (map (@duration_minutes Q) segs).

(** The sum of the widths of a timeline, written without the
    accumulator of the code. *)
Definition sumWidths (slots : list (Slot Q)) : Q :=
  fold_right Qplus 0%Q (map (@width Q) slots).


(** A leg that may be laid out: a ride lasts, a walk may take no time. *)
Definition layable (segment : PlanSegment Q) : Prop :=
  match type segment with
  | transit => (0 < duration_minutes segment)%Q
  | walk => (0 <= duration_minutes segment)%Q
  end.

(** A width that needs no adjustment: at least 15 for a ride, at least 8
    for a walk. *)
Definition legible (s : Slot Q) : Prop :=
  if isTransit s then (15 <= width s)%Q else (8 <= width s)%Q.

(** Two slots of the same leg with equal widths. *)
Definition same_slot (a b : Slot Q) : Prop :=
  (width b == width a)%Q /\ isTransit b = isTransit a /\ duration b = duration a.

(** ** The earlier mobile map ([mobile/src/components]): straight lines

    The version of the map component that draws every leg as the straight
    line between its end coordinates. *)

Module StraightMap.

Section Convert.
Variable num : Type.

Definition convertPlanToSegments (plan : Plan num) : list (RouteSegment num) :=
  map (fun segment =>
         let points := [ {| latitude := from_lat segment;
                            longitude := from_lon segment |};
                         {| latitude := to_lat segment;
                            longitude := to_lon segment |} ] in
         let color := match type segment with
                      | walk => "#6b7280"%string
                      | transit => "#3b82f6"%string
                      end in
         let isDashed := SegmentType_eqb (type segment) walk in
         {| points := points; color := color; isDashed := isDashed |})
      (segments plan).

End Convert.

End StraightMap.

(** ** Fitting the map to a route ([Map.tsx], in the route-loading effect) *)

Module MapRegion.

Record Region (num : Type) := {
  latitude : num;
  longitude : num;
  latitudeDelta : num;
  longitudeDelta : num
}.

End MapRegion.

Section FitRegion.
Context {num : Type} `{Number num}.
Variable Infinity : num.
Local Open Scope js_scope.

(** [Math.min(...xs)] and [Math.max(...xs)]: [Infinity] and [-Infinity]
    when there is no argument. *)
Definition Math_min_spread (xs : list num) : num :=
  match xs with
  | [] => Infinity
  | x :: rest => fold_left Math_min rest x
  end.

Definition Math_max_spread (xs : list num) : num :=
  match xs with
  | [] => ofZ 0 - Infinity
  | x :: rest => fold_left Math_max rest x
  end.

(** The region set after the segments of a route are committed; [1.5] is
    [3 / 2] and [0.01] is [1 / 100]. *)
Definition fitRegion (segments : list (RouteSegment num))
  : MapRegion.Region num :=
  let allPoints := flat_map (@points num) segments in
  let lats := map (@latitude num) allPoints in
  let lngs := map (@longitude num) allPoints in
  let minLat := Math_min_spread lats in
  let maxLat := Math_max_spread lats in
  let minLng := Math_min_spread lngs in
  let maxLng := Math_max_spread lngs in
  {| MapRegion.latitude := (minLat + maxLat) / ofZ 2;
     MapRegion.longitude := (minLng + maxLng) / ofZ 2;
     MapRegion.latitudeDelta :=
       Math_max ((maxLat - minLat) * (ofZ 3 / ofZ 2)) (ofZ 1 / ofZ 100);
     MapRegion.longitudeDelta :=
       Math_max ((maxLng - minLng) * (ofZ 3 / ofZ 2)) (ofZ 1 / ofZ 100) |}.

End FitRegion.

(** ** Nearby routes ([BottomSheet.tsx], [fetchNearbyRoutes])

    A [Map] keeps its keys in the order of their first insertion: a list
    of pairs.  Strings are compared by code units, as [<] does. *)

Module Nearby.

Record Trip := {
  trip_id : Z;
  route_id : Z;
  route_short_name : string;
  route_long_name : string;
  nearby_stop_id : Z;
  nearby_stop_arrival_time : string;
  direction_id : Z;
  trip_headsign : string
}.

Record RouteItem := {
  routeShortName : string;
  routeLongName : string;
  address : string;
  minutes : Z;
  trip : Trip
}.

(** [a < b] on strings *)
Definition string_lt (a b : string) : bool :=
  match String_as_OT.compare a b with
  | Lt => true
  | _ => false
  end.

Definition Map_has {V} (key : string) (m : list (string * V)) : bool :=
  existsb (fun entry => String.eqb (fst entry) key) m.

Definition Map_get {V} (key : string) (m : list (string * V)) : option V :=
  option_map snd (find (fun entry => String.eqb (fst entry) key) m).

Definition Map_set {V} (key : string) (value : V) (m : list (string * V))
  : list (string * V) :=
  if Map_has key m
  then map (fun entry => if String.eqb (fst entry) key then (key, value)
                         else entry) m
  else m ++ [(key, value)].

(** The body of [trips.forEach]: the earliest trip of each route. *)
Definition group (routeMap : list (string * Trip)) (trip : Trip)
  : list (string * Trip) :=
  let key := route_short_name trip in
  if negb (Map_has key routeMap) then Map_set key trip routeMap
  else match Map_get key routeMap with
       | Some existing =>
           if string_lt (nearby_stop_arrival_time trip)
                        (nearby_stop_arrival_time existing)
           then Map_set key trip routeMap
           else routeMap
       | None => routeMap
       end.

(** [Array.from(routeMap.values())] *)
Definition earliestTrips (trips : list Trip) : list Trip :=
  map snd (fold_left group trips []).

(** [items.sort((a, b) => a.minutes - b.minutes)]: the sort is stable, so
    an item goes behind the items that are not later than it. *)
Fixpoint insert (item : RouteItem) (sorted : list RouteItem) : list RouteItem :=
  match sorted with
  | [] => [item]
  | other :: rest =>
      if (minutes item <? minutes other)%Z then item :: other :: rest
      else other :: insert item rest
  end.

Definition sort (items : list RouteItem) : list RouteItem :=
  fold_left (fun sorted item => insert item sorted) items [].

Section NearbyRoutes.
Variable num : Type.
Variable stops : list (Stop num).

(** The minutes from now until a time of day ["HH:MM:SS"], as the
    callback computes them with [Date] and rounds them; the clock is read
    once and the times are taken to be well formed, so that this is an
    integer. *)
Variable minutesUntil : string -> Z.

Definition toRouteItem (trip : Trip) : RouteItem :=
  let stop := find (has_stop_id (nearby_stop_id trip)) stops in
  let address :=
    match stop with
    | Some s => if String.eqb (stop_name s) EmptyString then "Unknown Stop"%string
                else stop_name s
    | None => "Unknown Stop"%string
    end in
  {| routeShortName := route_short_name trip;
     routeLongName := route_long_name trip;
     address := address;
     minutes := minutesUntil (nearby_stop_arrival_time trip);
     trip := trip |}.

(** The routes shown: the top 3. *)
Definition nearbyRoutes (trips : list Trip) : list RouteItem :=
  slice (sort (map toRouteItem (earliestTrips trips))) 0 3.

End NearbyRoutes.

End Nearby.

Section NearbySpec.
Import Nearby.

(** What the grouping keeps while it goes through the trips [processed]:
    one entry per route name met so far, holding a trip of that route that
    no processed trip of the route precedes in time. *)
Definition grouped (processed : list Trip) (m : list (string * Trip)) : Prop :=
  NoDup (map fst m) /\
  (forall k v, In (k, v) m ->
     route_short_name v = k /\ In v processed /\
     forall t, In t processed -> route_short_name t = k ->
       string_lt (nearby_stop_arrival_time t) (nearby_stop_arrival_time v)
       = false) /\
  (forall t, In t processed -> In (route_short_name t) (map fst m)).

(** Items in ascending order of their minutes. *)
Definition ascending (items : list RouteItem) : Prop :=
  StronglySorted (fun a b => (minutes a <= minutes b)%Z) items.

End NearbySpec.

(** ** Route options ([BottomSheet.tsx], [fetchRouteOptions]) *)

(** [xs.map((x, index) => f(x, index))] *)
Fixpoint mapi_from {A B} (f : A -> nat -> B) (index : nat) (xs : list A) : list B :=
  match xs with
  | [] => []
  | x :: rest => f x index :: mapi_from f (S index) rest
  end.

Module Options.

Record RouteOption (num : Type) := {
  plan : Plan num;
  routeLetter : string;
  departureTime : string;
  minutesUntilDeparture : num;
  totalDuration : num
}.

End Options.

Section RouteOptions.
Context {num : Type} `{Number num}.

(** What the [Date] computations make of [plan.departure_time]: the
    formatted departure time and the minutes until departure. *)
Variable departure : Plan num -> string * num.

(** [plan.segments.some((segment) => segment.type === "transit")] *)
Definition hasTransit (plan : Plan num) : bool :=
  existsb (fun segment => SegmentType_eqb (type segment) transit) (segments plan).

Definition toRouteOption (plan : Plan num) (index : nat)
  : Options.RouteOption num :=
  {| Options.plan := plan;
     Options.routeLetter := String (Ascii.ascii_of_nat (65 + index)) EmptyString;
     Options.departureTime := fst (departure plan);
     Options.minutesUntilDeparture := snd (departure plan);
     Options.totalDuration := totalDuration plan |}.

(** The options set by the effect, from what [planRoute] settles with;
    an exception leaves no option. *)
Definition fetchRouteOptions (planned : Completion (list (Plan num)))
  : list (Options.RouteOption num) :=
  match planned with
  | Returned plans =>
      let plansWithTransit := filter hasTransit plans in
      mapi_from toRouteOption 0 (slice plansWithTransit 0 3)
  | Thrown _ => []
  end.

End RouteOptions.

(** ** Sample data for the further properties *)

Definition tripA1 : Nearby.Trip :=
  {| Nearby.trip_id := 11; Nearby.route_id := 1;
     Nearby.route_short_name := "A"; Nearby.route_long_name := "Route A";
     Nearby.nearby_stop_id := 1; Nearby.nearby_stop_arrival_time := "08:10:00";
     Nearby.direction_id := 0; Nearby.trip_headsign := "Tandon" |}.

Definition tripA2 : Nearby.Trip :=
  {| Nearby.trip_id := 12; Nearby.route_id := 1;
     Nearby.route_short_name := "A"; Nearby.route_long_name := "Route A";
     Nearby.nearby_stop_id := 2; Nearby.nearby_stop_arrival_time := "08:05:00";
     Nearby.direction_id := 0; Nearby.trip_headsign := "Tandon" |}.

Definition tripB1 : Nearby.Trip :=
  {| Nearby.trip_id := 21; Nearby.route_id := 2;
     Nearby.route_short_name := "B"; Nearby.route_long_name := "Route B";
     Nearby.nearby_stop_id := 9; Nearby.nearby_stop_arrival_time := "08:02:00";
     Nearby.direction_id := 1; Nearby.trip_headsign := "Square" |}.

(** Minutes after 08:00 of the three sample times. *)
Definition sampleMinutes (time : string) : Z :=
  if String.eqb time "08:10:00" then 10
  else if String.eqb time "08:05:00" then 5
  else 2.

(** ** The route letter on the timeline ([BottomSheet.tsx], [renderContent]) *)

Section RouteLetter.
Variable num : Type.

(** [isTransit && isFirstTransit] for the segment at [segIndex]: whether
    the timeline shows the route letter on it. *)
Definition showsLetter (segments : list (PlanSegment num))
    (segment : PlanSegment num) (segIndex : nat) : bool :=
  let isTransit := SegmentType_eqb (type segment) transit in
  let isFirstTransit :=
    isTransit
    && forallb (fun s => SegmentType_eqb (type s) walk)
               (slice segments 0 (Z.of_nat segIndex)) in
  isTransit && isFirstTransit.

End RouteLetter.

(** * Properties *)

(** ** The embedding at work *)

Example layout_three_legs :
  map (fun s => Qred (width s)) (layout 30 [leg walk 5; leg transit 20; leg walk 5])
  = [50 # 3; 200 # 3; 50 # 3]%Q.
Proof. vm_compute. reflexivity. Qed.

(** A short ride between long walks: the scale-up to 15 is undone by the
    final down-scale. *)
Example layout_short_ride :
  map (fun s => Qred (width s)) (layout 22 [leg walk 1; leg transit 1; leg walk 20])
  = [50 # 11; 50 # 11; 1000 # 11]%Q.
Proof. vm_compute. reflexivity. Qed.

Example layout_three_legs_float :
  map (@width float)
      (planLayout {| estimated_duration_minutes := 0%float;
                     segments := [leg walk 5%float; leg transit 20%float;
                                  leg walk 5%float] |})
  = [0x1.0aaaaaaaaaaaap+4%float; 0x1.0aaaaaaaaaaaap+6%float;
     0x1.0aaaaaaaaaaaap+4%float].       (* 16.666666666666664, 66.66666666666666 *)
Proof. vm_compute. reflexivity. Qed.

Example walk_of_no_duration_float :
  map (@width float)
      (planLayout {| estimated_duration_minutes := 0%float;
                     segments := [leg walk 0%float; leg transit 7%float] |})
  = [0x1.da12f684bda13p+2%float; 0x1.725ed097b425fp+6%float].
                                    (* 7.4074074074074074, 92.592592592592595 *)
Proof. vm_compute. reflexivity. Qed.

(** One ride of a minute in a plan of 19 minutes: in binary64 the scale-up
    to 15 lands one unit in the last place below 15. *)
Example ride_scaled_up_float :
  map (@width float)
      (planLayout {| estimated_duration_minutes := 19%float;
                     segments := [leg transit 1%float] |})
  = [0x1.dffffffffffffp+3%float].                       (* 14.999999999999998 *)
Proof. vm_compute. reflexivity. Qed.

Example slice_negative : slice [1; 2; 3; 4; 5]%Z (-3) (-1) = [3; 4]%Z.
Proof. reflexivity. Qed.

Example findIndex_missing : findIndex (Z.eqb 9) [1; 2; 3]%Z = (-1)%Z.
Proof. reflexivity. Qed.

Example stops_forward :
  getStopsBetween tripApi 7 1 3 [] = Returned [stop0; stop1; stop2].
Proof. reflexivity. Qed.

Example stops_backward :
  getStopsBetween tripApi 7 3 2 [] = Returned [stop2; stop1].
Proof. reflexivity. Qed.

Example stops_unknown_trip :
  getStopsBetween tripApi 8 1 3 [stop2; stop0] = Returned [stop0; stop2].
Proof. reflexivity. Qed.

Example road_geometry :
  fetchOSRMRoute roadService 0 0 0 2
  = Returned [point 0 0; point 0 1; point 0 2].
Proof. reflexivity. Qed.

Example stitched_fallback :
  stitchStops unreachable 0 [stop0; stop1; stop2] []
  = Returned [point 0 0; point 0 2; point 0 3].
Proof. reflexivity. Qed.

(** ** The layout in exact arithmetic *)

Section LayoutExact.
Local Open Scope Q_scope.

Lemma Qltb_true (x y : Q) : Exact.Qltb x y = true <-> x < y.
Proof.
  unfold Exact.Qltb. rewrite negb_true_iff.
  destruct (Qle_bool y x) eqn:E.
  - apply Qle_bool_iff in E. split; [discriminate | intros L; lraQ].
  - split; [intros _ | reflexivity].
    destruct (Qlt_le_dec x y) as [L | L]; [exact L |].
    apply Qle_bool_iff in L. congruence.
Qed.

Lemma Qltb_false (x y : Q) : Exact.Qltb x y = false <-> y <= x.
Proof.
  unfold Exact.Qltb. rewrite negb_false_iff. apply Qle_bool_iff.
Qed.

Lemma safeTotalDuration_pos (t : Q) : 0 < safeTotalDuration t.
Proof.
  unfold safeTotalDuration. cbn [nltb ofZ Number_Q].
  destruct (Exact.Qltb (inject_Z 0) t) eqn:E.
  - apply Qltb_true in E. exact E.
  - reflexivity.
Qed.

(** [Math.min(...ws)] is a lower bound of its arguments and is positive when
    they all are. *)
Lemma fold_min_le (ws : list Q) :
  forall w, fold_left Qmin ws w <= w /\
            Forall (fun x => fold_left Qmin ws w <= x) ws.
Proof.
  induction ws as [| x ws IH]; intros w; cbn [fold_left].
  - split; [lraQ | constructor].
  - destruct (IH (Qmin w x)) as [L1 L2].
    pose proof (Q.le_min_l w x). pose proof (Q.le_min_r w x).
    split; [lraQ |]. constructor; [lraQ | exact L2].
Qed.

Lemma fold_min_pos (ws : list Q) :
  forall w, 0 < w -> Forall (fun x => 0 < x) ws -> 0 < fold_left Qmin ws w.
Proof.
  induction ws as [| x ws IH]; intros w Hw Hws; cbn [fold_left].
  - exact Hw.
  - inversion Hws; subst. apply IH; [| assumption].
    destruct (Q.min_spec w x) as [[_ E] | [_ E]]; rewrite E; assumption.
Qed.


Lemma scaleFactor_spec (m : Q) :
  0 < m ->
  0 < scaleFactor m /\ forall x, m <= x -> 15 <= x * scaleFactor m.
Proof.
  intros Hm. unfold scaleFactor, MIN_TRANSIT_WIDTH_PERCENT.
  cbn [nltb ndiv ofZ Number_Q].
  destruct (Exact.Qltb m (inject_Z 15)) eqn:E.
  - apply Qltb_true in E. split.
    + apply Qlt_shift_div_l; [exact Hm | reflexivity].
    + intros x Hx.
      assert (Hd : 0 < inject_Z 15 / m)
        by (apply Qlt_shift_div_l; [exact Hm | reflexivity]).
      assert (E1 : m * (inject_Z 15 / m) == 15)
        by (field; intros Z; rewrite Z in Hm; discriminate).
      rewrite <- E1. apply Qmult_le_compat_r; [exact Hx | lraQ].
  - apply Qltb_false in E. split; [reflexivity |].
    intros x Hx. change (inject_Z 15) with 15 in E.
    change (inject_Z 1) with 1. lraQ.
Qed.



Lemma totalWidth_acc (l : list (Slot Q)) :
  forall a b, a == b ->
    fold_left (fun sum seg => sum + width seg) l a
    == fold_left (fun sum seg => sum + width seg) l b.
Proof.
  induction l as [| s l IH]; intros a b E; cbn [fold_left].
  - exact E.
  - apply IH. rewrite E. reflexivity.
Qed.

Lemma totalWidth_scale (k : Q) (l : list (Slot Q)) :
  forall a,
    fold_left (fun sum seg => sum + width seg) (map (scale k) l) (a * k)
    == fold_left (fun sum seg => sum + width seg) l a * k.
Proof.
  induction l as [| s l IH]; intros a; cbn [fold_left map].
  - reflexivity.
  - rewrite <- IH. apply totalWidth_acc.
    cbn [scale width nmul Number_Q]. ring.
Qed.

Lemma finalWidths_total (adjusted : list (Slot Q)) :
  totalWidth (finalWidths adjusted) <= 100.
Proof.
  unfold finalWidths. cbn [nltb ndiv ofZ Number_Q].
  destruct (Exact.Qltb (inject_Z 100) (totalWidth adjusted)) eqn:E.
  - apply Qltb_true in E. change (inject_Z 100) with 100 in *.
    unfold totalWidth at 1. cbn [nadd ofZ Number_Q].
    rewrite (totalWidth_acc _ (a := inject_Z 0)
               (b := inject_Z 0 * (100 / totalWidth adjusted)))
      by (change (inject_Z 0) with 0; ring).
    rewrite totalWidth_scale.
    change (fold_left (fun sum seg => sum + width seg) adjusted (inject_Z 0))
      with (totalWidth adjusted).
    assert (E1 : totalWidth adjusted * (100 / totalWidth adjusted) == 100)
      by (field; intros Z; rewrite Z in E; discriminate).
    rewrite E1. lraQ.
  - apply Qltb_false in E. exact E.
Qed.

Lemma finalWidths_fields (adjusted : list (Slot Q)) :
  map (@duration Q) (finalWidths adjusted) = map (@duration Q) adjusted /\
  map (@isTransit Q) (finalWidths adjusted) = map (@isTransit Q) adjusted.
Proof.
  unfold finalWidths.
  destruct (totalWidth adjusted >? ofZ 100)%js; [| split; reflexivity].
  rewrite !map_map. split; reflexivity.
Qed.

Lemma adjustedLayout_fields (t : Q) (segs : list (PlanSegment Q)) :
  map (@duration Q) (adjustedLayout t segs)
    = map (@duration_minutes Q) segs /\
  map (@isTransit Q) (adjustedLayout t segs)
    = map (fun segment => SegmentType_eqb (type segment) transit) segs.
Proof.
  unfold adjustedLayout, adjustedWidths, scaledWidths, trueProportionalWidths.
  rewrite !map_map. split; apply map_ext; intros seg;
    cbn [scale isTransit duration]; destruct (SegmentType_eqb (type seg) transit);
    reflexivity.
Qed.

Lemma Forall2_map_self {A} (R : A -> A -> Prop) (h : A -> A) (l : list A) :
  Forall (fun x => R x (h x)) l -> Forall2 R l (map h l).
Proof.
  induction 1; cbn [map]; constructor; assumption.
Qed.

Lemma totalWidth_sum_acc (l : list (Slot Q)) :
  forall a, fold_left (fun sum seg => sum + width seg) l a == a + sumWidths l.
Proof.
  induction l as [| s l IH]; intros a; cbn [fold_left].
  - unfold sumWidths. cbn [map fold_right]. ring.
  - rewrite IH. unfold sumWidths. cbn [map fold_right]. ring.
Qed.

Lemma totalWidth_sumWidths (l : list (Slot Q)) : totalWidth l == sumWidths l.
Proof.
  unfold totalWidth. cbn [nadd ofZ Number_Q]. rewrite totalWidth_sum_acc.
  change (inject_Z 0) with 0. ring.
Qed.




End LayoutExact.

(** ** Stitching the road geometry of a transit leg *)

Section Stitching.
Variable num : Type.
Variable osrm : OsrmService num.

Lemma fetchOSRMRoute_returns (fromLat fromLon toLat toLon : num) :
  exists pts, fetchOSRMRoute osrm fromLat fromLon toLat toLon = Returned pts.
Proof.
  unfold fetchOSRMRoute, attempt.
  destruct (osrmCoordinates _ _) as [pts | e]; eexists; reflexivity.
Qed.

Lemma fetchOSRMRoute_roadPoints (a b : Stop num) :
  fetchOSRMRoute osrm (lat a) (lon a) (lat b) (lon b)
  = Returned (roadPoints osrm a b).
Proof.
  unfold roadPoints.
  destruct (fetchOSRMRoute_returns (lat a) (lon a) (lat b) (lon b)) as [pts ->].
  reflexivity.
Qed.

Lemma stitchStops_step (i : nat) (a b : Stop num) (rest : list (Stop num))
    (allPoints : list (LatLng num)) :
  stitchStops osrm i (a :: b :: rest) allPoints
  = bind (fetchOSRMRoute osrm (lat a) (lon a) (lat b) (lon b))
      (fun segmentPoints =>
         stitchStops osrm (S i) (b :: rest)
           (allPoints ++ (if Nat.eqb i 0 then segmentPoints
                          else slice1 segmentPoints))).
Proof. reflexivity. Qed.

Lemma stitchStops_later (routeStops : list (Stop num)) :
  forall i allPoints,
    stitchStops osrm (S i) routeStops allPoints
    = Returned (allPoints ++ List.concat (map (skipn 1) (subPolylines osrm routeStops))).
Proof.
  induction routeStops as [| a rest IH]; intros i allPoints.
  - cbn. rewrite app_nil_r. reflexivity.
  - destruct rest as [| b rest'].
    + cbn. rewrite app_nil_r. reflexivity.
    + rewrite stitchStops_step, fetchOSRMRoute_roadPoints.
      cbn [bind Nat.eqb]. rewrite IH.
      change (subPolylines osrm (a :: b :: rest'))
        with (roadPoints osrm a b :: subPolylines osrm (b :: rest')).
      cbn [map List.concat]. unfold slice1.
      rewrite <- app_assoc. reflexivity.
Qed.

Lemma stitchStops_stitched (routeStops : list (Stop num)) :
  stitchStops osrm 0 routeStops [] = Returned (stitched (subPolylines osrm routeStops)).
Proof.
  destruct routeStops as [| a [| b rest]]; try reflexivity.
  rewrite stitchStops_step, fetchOSRMRoute_roadPoints.
  cbn [bind Nat.eqb app]. apply stitchStops_later.
Qed.

End Stitching.

(** Claim C3.  The points collected for a transit leg are the first
    sub-polyline followed by every later sub-polyline without its first
    point; with three stops whose sub-polylines are [[p0, p1, p2]] and
    [[p2, p3]] the result is [[p0, p1, p2, p3]], of length 4. *)
Theorem stitch_deduplication (num : Type) (osrm : OsrmService num) :
  (forall routeStops,
     stitchStops osrm 0 routeStops []
     = Returned (stitched (subPolylines osrm routeStops))) /\
  (forall (s0 s1 s2 : Stop num) (p0 p1 p2 p3 : LatLng num),
     fetchOSRMRoute osrm (lat s0) (lon s0) (lat s1) (lon s1)
       = Returned [p0; p1; p2] ->
     fetchOSRMRoute osrm (lat s1) (lon s1) (lat s2) (lon s2)
       = Returned [p2; p3] ->
     stitchStops osrm 0 [s0; s1; s2] [] = Returned [p0; p1; p2; p3] /\
     List.length [p0; p1; p2; p3] = 4%nat).
Proof.
  split.
  - apply stitchStops_stitched.
  - intros s0 s1 s2 p0 p1 p2 p3 E01 E12.
    rewrite stitchStops_step, E01. cbn [bind Nat.eqb app].
    rewrite stitchStops_step, E12. cbn. split; reflexivity.
Qed.

Lemma stitch_deduplication_witness :
  stitchStops roadService 0 [stop0; stop1; stop2] []
  = Returned [point 0 0; point 0 1; point 0 2; point 0 3] /\
  List.length [point 0 0; point 0 1; point 0 2; point 0 3] = 4%nat.
Proof.
  apply (proj2 (stitch_deduplication roadService) stop0 stop1 stop2);
    reflexivity.
Defined.

(** ** The stops between two stops of a trip *)

Section ArrayFacts.
Context {A : Type}.

Lemma findIndex_absent (p : A -> bool) (xs : list A) :
  find p xs = None -> findIndex p xs = (-1)%Z.
Proof.
  induction xs as [| x xs IH]; cbn [find findIndex]; [reflexivity |].
  destruct (p x); [discriminate |].
  intros E. rewrite (IH E). reflexivity.
Qed.

Lemma findIndex_present (p : A -> bool) (xs : list A) (x : A) :
  find p xs = Some x ->
  exists pre post,
    xs = pre ++ x :: post /\ findIndex p xs = Z.of_nat (List.length pre).
Proof.
  revert x. induction xs as [| y xs IH]; intros x; cbn [find findIndex].
  - discriminate.
  - destruct (p y).
    + intros [= <-]. exists [], xs. split; reflexivity.
    + intros E. destruct (IH x E) as [pre [post [-> Ei]]].
      exists (y :: pre), post. split; [reflexivity |].
      rewrite Ei. cbn [List.length].
      destruct (Z.eqb_spec (Z.of_nat (List.length pre)) (-1)); lia.
Qed.

Lemma slice_window (pre mid post : list A) :
  slice (pre ++ mid ++ post) (Z.of_nat (List.length pre))
        (Z.of_nat (List.length pre) + Z.of_nat (List.length mid))
  = mid.
Proof.
  unfold slice. rewrite !length_app.
  destruct (Z.ltb_spec (Z.of_nat (List.length pre)) 0); [lia |].
  destruct (Z.ltb_spec (Z.of_nat (List.length pre)
                        + Z.of_nat (List.length mid)) 0); [lia |].
  replace (Z.to_nat (Z.min (Z.of_nat (List.length pre))
             (Z.of_nat (List.length pre + (List.length mid + List.length post)))))
    with (List.length pre) by lia.
  replace (Z.to_nat _) with (List.length mid) by lia.
  rewrite skipn_app, skipn_all, Nat.sub_diag. cbn [skipn app].
  rewrite firstn_app, firstn_all, Nat.sub_diag. cbn [firstn].
  apply app_nil_r.
Qed.

Lemma split_order (pre1 post1 pre2 post2 : list A) (a b : A) :
  pre1 ++ a :: post1 = pre2 ++ b :: post2 ->
  (List.length pre1 < List.length pre2)%nat ->
  exists mid, pre2 = pre1 ++ a :: mid /\ post1 = mid ++ b :: post2.
Proof.
  intros E L. apply app_eq_app in E.
  destruct E as [l [[E1 E2] | [E1 E2]]].
  - subst pre1. rewrite length_app in L. lia.
  - subst pre2. destruct l as [| a' mid].
    + rewrite app_nil_r in L. lia.
    + injection E2 as <- ->. exists mid. split; reflexivity.
Qed.

Lemma split_same (pre1 post1 pre2 post2 : list A) (a b : A) :
  pre1 ++ a :: post1 = pre2 ++ b :: post2 ->
  List.length pre1 = List.length pre2 ->
  a = b.
Proof.
  intros E L. apply app_eq_app in E.
  destruct E as [l [[E1 E2] | [E1 E2]]]; subst;
    rewrite length_app in L; (destruct l; [| cbn in L; lia]);
    cbn in E2; congruence.
Qed.

End ArrayFacts.

Section StopsBetween.
Variable num : Type.
Variable api : TripStopsApi num.

Lemma getTripStops_returns (tripId : Z) :
  getTripStops api tripId = Returned (tripListing api tripId).
Proof.
  unfold tripListing, getTripStops, attempt.
  destruct (api tripId) as [| [] status [[stops |] |]]; reflexivity.
Qed.

Lemma lookupFailed_listing (tripId : Z) :
  lookupFailed (api tripId) = true -> tripListing api tripId = [].
Proof.
  unfold tripListing, getTripStops, attempt, lookupFailed.
  destruct (api tripId) as [| [] status [[stops |] |]];
    cbn; intros E; try reflexivity; discriminate.
Qed.

Lemma getStopsBetween_unfold (tripId fromStopId toStopId : Z)
    (allStops : list (Stop num)) :
  getStopsBetween api tripId fromStopId toStopId allStops
  = Returned
      (let tripStops := tripListing api tripId in
       let fromIndex := findIndex (has_stop_id fromStopId) tripStops in
       let toIndex := findIndex (has_stop_id toStopId) tripStops in
       if Nat.eqb (List.length tripStops) 0
       then endpointStops fromStopId toStopId allStops
       else if (fromIndex =? -1)%Z || (toIndex =? -1)%Z
       then endpointStops fromStopId toStopId allStops
       else if (fromIndex <=? toIndex)%Z
       then slice tripStops fromIndex (toIndex + 1)
       else rev (slice tripStops toIndex (fromIndex + 1))).
Proof.
  unfold getStopsBetween. rewrite getTripStops_returns.
  cbn [bind attempt]. cbv zeta.
  destruct (Nat.eqb _ 0); [reflexivity |].
  destruct (_ || _); [reflexivity |].
  destruct (_ <=? _)%Z; reflexivity.
Qed.

Lemma getStopsBetween_fallback (tripId fromStopId toStopId : Z)
    (allStops : list (Stop num)) :
  tripListing api tripId = []
  \/ find (has_stop_id fromStopId) (tripListing api tripId) = None
  \/ find (has_stop_id toStopId) (tripListing api tripId) = None ->
  getStopsBetween api tripId fromStopId toStopId allStops
  = Returned (endpointStops fromStopId toStopId allStops).
Proof.
  intros H. rewrite getStopsBetween_unfold. cbv zeta.
  destruct H as [E | [E | E]].
  - rewrite E. reflexivity.
  - rewrite (findIndex_absent _ _ E). cbn [Z.eqb orb].
    destruct (Nat.eqb _ 0); reflexivity.
  - rewrite (findIndex_absent _ _ E). rewrite orb_true_r.
    destruct (Nat.eqb _ 0); reflexivity.
Qed.

(** The three shapes of the window when both stops are on the trip. *)
Lemma getStopsBetween_window (tripId fromStopId toStopId : Z)
    (allStops : list (Stop num)) (so sd : Stop num) :
  let tripStops := tripListing api tripId in
  let fromIndex := findIndex (has_stop_id fromStopId) tripStops in
  let toIndex := findIndex (has_stop_id toStopId) tripStops in
  find (has_stop_id fromStopId) tripStops = Some so ->
  find (has_stop_id toStopId) tripStops = Some sd ->
  ((fromIndex < toIndex)%Z /\
   exists pre mid post,
     tripStops = pre ++ so :: mid ++ sd :: post /\
     slice tripStops fromIndex (toIndex + 1) = so :: mid ++ [sd] /\
     getStopsBetween api tripId fromStopId toStopId allStops
     = Returned (so :: mid ++ [sd]))
  \/ (fromIndex = toIndex /\ so = sd /\
      slice tripStops fromIndex (toIndex + 1) = [so] /\
      getStopsBetween api tripId fromStopId toStopId allStops = Returned [so])
  \/ ((toIndex < fromIndex)%Z /\
      exists pre mid post,
        tripStops = pre ++ sd :: mid ++ so :: post /\
        slice tripStops toIndex (fromIndex + 1) = sd :: mid ++ [so] /\
        getStopsBetween api tripId fromStopId toStopId allStops
        = Returned (so :: rev mid ++ [sd])).
Proof.
  intros tripStops fromIndex toIndex Ef Et.
  destruct (findIndex_present _ _ Ef) as [pre1 [post1 [S1 I1]]].
  destruct (findIndex_present _ _ Et) as [pre2 [post2 [S2 I2]]].
  fold tripStops in S1, S2, I1, I2. fold fromIndex in I1. fold toIndex in I2.
  assert (Hne : Nat.eqb (List.length tripStops) 0 = false).
  { rewrite S1, length_app. cbn [List.length]. apply Nat.eqb_neq. lia. }
  assert (Hidx : ((fromIndex =? -1)%Z || (toIndex =? -1)%Z) = false).
  { apply orb_false_iff. split; apply Z.eqb_neq; lia. }
  pose proof (getStopsBetween_unfold tripId fromStopId toStopId allStops) as G.
  cbv zeta in G. fold tripStops in G. fold fromIndex toIndex in G.
  rewrite Hne, Hidx in G.
  destruct (Z.lt_trichotomy fromIndex toIndex) as [L | [L | L]].
  - left. split; [exact L |].
    assert (Hs : tripStops = pre2 ++ sd :: post2) by exact S2.
    rewrite S1 in Hs.
    destruct (split_order _ _ _ _ _ _ Hs) as [mid [P2 P1]]; [lia |].
    exists pre1, mid, post2.
    assert (Ew : tripStops = pre1 ++ (so :: mid ++ [sd]) ++ post2).
    { rewrite S1, P1. cbn [app]. rewrite <- app_assoc. reflexivity. }
    assert (Es : slice tripStops fromIndex (toIndex + 1) = so :: mid ++ [sd]).
    { rewrite Ew at 1. rewrite I1, I2, P2.
      replace (Z.of_nat (List.length (pre1 ++ so :: mid)) + 1)%Z
        with (Z.of_nat (List.length pre1)
              + Z.of_nat (List.length (so :: mid ++ [sd])))%Z.
      - apply slice_window.
      - rewrite !length_app. cbn [List.length]. rewrite length_app.
        cbn [List.length]. lia. }
    split; [| split; [exact Es |]].
    + rewrite S1, P1. reflexivity.
    + rewrite G. replace (fromIndex <=? toIndex)%Z with true
        by (symmetry; apply Z.leb_le; lia).
      rewrite Es. reflexivity.
  - right; left.
    assert (Hs : tripStops = pre2 ++ sd :: post2) by exact S2.
    rewrite S1 in Hs.
    assert (Esame : so = sd) by (apply (split_same _ _ _ _ _ _ Hs); lia).
    assert (Es : slice tripStops fromIndex (toIndex + 1) = [so]).
    { rewrite <- L. rewrite S1 at 1. rewrite I1.
      change (pre1 ++ so :: post1) with (pre1 ++ [so] ++ post1).
      change 1%Z with (Z.of_nat (List.length [so])). apply slice_window. }
    repeat split; try assumption.
    rewrite G. replace (fromIndex <=? toIndex)%Z with true
      by (symmetry; apply Z.leb_le; lia).
    rewrite Es. reflexivity.
  - right; right. split; [exact L |].
    assert (Hs : tripStops = pre1 ++ so :: post1) by exact S1.
    rewrite S2 in Hs.
    destruct (split_order _ _ _ _ _ _ Hs) as [mid [P1 P2]]; [lia |].
    exists pre2, mid, post1.
    assert (Ew : tripStops = pre2 ++ (sd :: mid ++ [so]) ++ post1).
    { rewrite S2, P2. cbn [app]. rewrite <- app_assoc. reflexivity. }
    assert (Es : slice tripStops toIndex (fromIndex + 1) = sd :: mid ++ [so]).
    { rewrite Ew at 1. rewrite I1, I2, P1.
      replace (Z.of_nat (List.length (pre2 ++ sd :: mid)) + 1)%Z
        with (Z.of_nat (List.length pre2)
              + Z.of_nat (List.length (sd :: mid ++ [so])))%Z.
      - apply slice_window.
      - rewrite !length_app. cbn [List.length]. rewrite length_app.
        cbn [List.length]. lia. }
    split; [| split; [exact Es |]].
    + rewrite S2, P2. reflexivity.
    + rewrite G. replace (fromIndex <=? toIndex)%Z with false
        by (symmetry; apply Z.leb_gt; lia).
      rewrite Es. cbn [rev]. rewrite rev_app_distr. reflexivity.
Qed.

End StopsBetween.

Section StopsBetweenListed.
Variable num : Type.
Variable api : TripStopsApi num.

Lemma tripListing_listed (tripId : Z) :
  tripListing api tripId = listedStops (api tripId).
Proof.
  unfold tripListing, getTripStops, attempt, listedStops.
  destruct (api tripId) as [| [] status [[stops |] |]]; reflexivity.
Qed.

Lemma endpointStops_known (fromStopId toStopId : Z) (allStops : list (Stop num)) :
  endpointStops fromStopId toStopId allStops
  = knownEndpoints fromStopId toStopId allStops.
Proof.
  unfold endpointStops, knownEndpoints.
  change (fun s : Stop num => (stop_id s =? fromStopId)%Z)
    with (has_stop_id (num := num) fromStopId).
  change (fun s : Stop num => (stop_id s =? toStopId)%Z)
    with (has_stop_id (num := num) toStopId).
  destruct (find (has_stop_id fromStopId) allStops),
           (find (has_stop_id toStopId) allStops); reflexivity.
Qed.

Lemma knownEndpoints_length (fromStopId toStopId : Z) (allStops : list (Stop num)) :
  (List.length (knownEndpoints fromStopId toStopId allStops) <= 2)%nat.
Proof.
  unfold knownEndpoints.
  destruct (find _ allStops), (find _ allStops); cbn; lia.
Qed.

Lemma absent_find (id : Z) (stops : list (Stop num)) :
  absent id stops -> find (has_stop_id id) stops = None.
Proof.
  induction 1 as [| s stops Hs _ IH]; cbn [find]; [reflexivity |].
  unfold has_stop_id at 1. apply Z.eqb_neq in Hs. rewrite Hs. exact IH.
Qed.

Lemma findIndex_first (id : Z) (pre post : list (Stop num)) (s : Stop num) :
  absent id pre -> stop_id s = id ->
  findIndex (has_stop_id id) (pre ++ s :: post) = Z.of_nat (List.length pre).
Proof.
  intros Hpre Hs.
  induction Hpre as [| y pre Hy _ IH]; cbn [app findIndex List.length].
  - unfold has_stop_id. rewrite Hs, Z.eqb_refl. reflexivity.
  - unfold has_stop_id at 1. apply Z.eqb_neq in Hy. rewrite Hy, IH.
    destruct (Z.eqb_spec (Z.of_nat (List.length pre)) (-1)); lia.
Qed.

(** The listing between two of its positions, both ends included. *)
Lemma slice_between (pre mid post : list (Stop num)) (a b : Stop num) :
  slice (pre ++ a :: mid ++ b :: post)
        (Z.of_nat (List.length pre))
        (Z.of_nat (List.length (pre ++ a :: mid)) + 1)
  = a :: mid ++ [b].
Proof.
  replace (pre ++ a :: mid ++ b :: post)
    with (pre ++ (a :: mid ++ [b]) ++ post)
    by (cbn [app]; rewrite <- app_assoc; reflexivity).
  replace (Z.of_nat (List.length (pre ++ a :: mid)) + 1)%Z
    with (Z.of_nat (List.length pre)
          + Z.of_nat (List.length (a :: mid ++ [b])))%Z.
  - apply slice_window.
  - rewrite !length_app. cbn [List.length]. rewrite length_app.
    cbn [List.length]. lia.
Qed.

End StopsBetweenListed.

(** ** Endpoints of the stitched geometry *)

Section StitchedEndpoints.
Variable num : Type.
Variable osrm : OsrmService num.
Hypothesis faithful : endpointFaithful osrm.

Lemma later_pieces_end (mid : list (Stop num)) :
  forall m b, exists x,
    List.concat (map (skipn 1) (subPolylines osrm (m :: mid ++ [b])))
    = x ++ [stopPoint b].
Proof.
  induction mid as [| m' mid IH]; intros m b.
  - destruct (faithful m b) as [y Ey].
    exists y. cbn. rewrite Ey. cbn. apply app_nil_r.
  - destruct (IH m' b) as [x Ex]. destruct (faithful m m') as [y Ey].
    exists (y ++ [stopPoint m'] ++ x).
    change (subPolylines osrm (m :: (m' :: mid) ++ [b]))
      with (roadPoints osrm m m' :: subPolylines osrm (m' :: mid ++ [b])).
    cbn [map List.concat]. rewrite Ex, Ey. cbn [skipn].
    rewrite <- !app_assoc. reflexivity.
Qed.

Lemma stitched_connects (a b : Stop num) (mid : list (Stop num)) :
  connects (stopPoint a) (stopPoint b)
           (stitched (subPolylines osrm (a :: mid ++ [b]))).
Proof.
  destruct mid as [| m mid].
  - destruct (faithful a b) as [y Ey]. exists y.
    cbn. rewrite Ey. cbn. rewrite app_nil_r. reflexivity.
  - destruct (faithful a m) as [y Ey].
    destruct (later_pieces_end mid m b) as [x Ex].
    exists (y ++ [stopPoint m] ++ x).
    change (subPolylines osrm (a :: (m :: mid) ++ [b]))
      with (roadPoints osrm a m :: subPolylines osrm (m :: mid ++ [b])).
    cbn [stitched]. rewrite Ex, Ey. cbn [app].
    rewrite <- !app_assoc. reflexivity.
Qed.

End StitchedEndpoints.

Lemma two_ends {A} (l : list A) :
  (2 <= List.length l)%nat -> exists a mid b, l = a :: mid ++ [b].
Proof.
  destruct l as [| a l]; cbn [List.length]; [lia |].
  intros L. destruct (exists_last (l := l)) as [mid [b ->]].
  - destruct l; [cbn in L; lia | discriminate].
  - exists a, mid, b. reflexivity.
Qed.




(** Claim C10.  [getStopsBetween] always settles with a value.  The
    listing is what the answer of the per-trip endpoint says
    ([listedStops]), not what the code makes of it.  When the lookup
    fails, the listing is empty, or either stop is not on it, the value is
    the list of those of the two end stops that the catalog knows, origin
    first, hence of length at most 2.  Otherwise the value is the
    inclusive window of the listing between the first occurrences of the
    two stops, read from the origin to the destination: in listing order
    when the origin comes first, reversed when the destination comes
    first, and the stop alone when the two identifiers are the same; one
    of the three applies whenever both stops are on the listing. *)
Theorem getStopsBetween_total (num : Type) (api : TripStopsApi num)
    (tripId fromStopId toStopId : Z) (allStops : list (Stop num)) :
  let listing := listedStops (api tripId) in
  let result := getStopsBetween api tripId fromStopId toStopId allStops in
  (exists stops, result = Returned stops) /\
  (lookupFailed (api tripId) = true \/ listing = []
   \/ absent fromStopId listing \/ absent toStopId listing ->
   result = Returned (knownEndpoints fromStopId toStopId allStops) /\
   (List.length (knownEndpoints fromStopId toStopId allStops) <= 2)%nat) /\
  (forall pre so mid sd post,
     listing = pre ++ so :: mid ++ sd :: post ->
     stop_id so = fromStopId -> stop_id sd = toStopId ->
     absent fromStopId pre -> absent toStopId (pre ++ so :: mid) ->
     result = Returned (so :: mid ++ [sd])) /\
  (forall pre sd mid so post,
     listing = pre ++ sd :: mid ++ so :: post ->
     stop_id so = fromStopId -> stop_id sd = toStopId ->
     absent toStopId pre -> absent fromStopId (pre ++ sd :: mid) ->
     result = Returned (so :: rev mid ++ [sd])) /\
  (forall pre so post,
     listing = pre ++ so :: post ->
     stop_id so = fromStopId -> toStopId = fromStopId ->
     absent fromStopId pre ->
     result = Returned [so]) /\
  (forall so sd,
     find (has_stop_id fromStopId) listing = Some so ->
     find (has_stop_id toStopId) listing = Some sd ->
     (exists pre mid post,
        listing = pre ++ so :: mid ++ sd :: post /\
        result = Returned (so :: mid ++ [sd]))
     \/ (so = sd /\ result = Returned [so])
     \/ (exists pre mid post,
           listing = pre ++ sd :: mid ++ so :: post /\
           result = Returned (so :: rev mid ++ [sd]))).
Proof.
  intros listing result.
  pose proof (getStopsBetween_unfold api tripId fromStopId toStopId allStops)
    as G.
  cbv zeta in G. rewrite tripListing_listed in G.
  fold listing in G. fold result in G.
  split; [eexists; exact G |].
  split; [| split; [| split; [| split]]].
  - intros H. split; [| apply knownEndpoints_length].
    rewrite <- endpointStops_known.
    apply getStopsBetween_fallback. rewrite tripListing_listed.
    fold listing.
    destruct H as [F | [E | [A | A]]].
    + left. apply lookupFailed_listing in F.
      rewrite tripListing_listed in F. exact F.
    + left. exact E.
    + right. left. apply absent_find, A.
    + right. right. apply absent_find, A.
  - intros pre so mid sd post E Hso Hsd Apre Amid.
    assert (If : findIndex (has_stop_id fromStopId) listing
                 = Z.of_nat (List.length pre))
      by (rewrite E; apply findIndex_first; assumption).
    assert (It : findIndex (has_stop_id toStopId) listing
                 = Z.of_nat (List.length (pre ++ so :: mid))).
    { rewrite E.
      replace (pre ++ so :: mid ++ sd :: post)
        with ((pre ++ so :: mid) ++ sd :: post)
        by (rewrite <- app_assoc; reflexivity).
      apply findIndex_first; assumption. }
    rewrite G, If, It.
    replace (Nat.eqb (List.length listing) 0) with false
      by (rewrite E, length_app; cbn [List.length]; symmetry;
          apply Nat.eqb_neq; lia).
    replace ((Z.of_nat (List.length pre) =? -1)%Z
             || (Z.of_nat (List.length (pre ++ so :: mid)) =? -1)%Z)
      with false
      by (symmetry; apply orb_false_iff; split; apply Z.eqb_neq; lia).
    replace (Z.of_nat (List.length pre)
             <=? Z.of_nat (List.length (pre ++ so :: mid)))%Z with true
      by (symmetry; apply Z.leb_le; rewrite length_app; lia).
    rewrite E, slice_between. reflexivity.
  - intros pre sd mid so post E Hso Hsd Apre Amid.
    assert (It : findIndex (has_stop_id toStopId) listing
                 = Z.of_nat (List.length pre))
      by (rewrite E; apply findIndex_first; assumption).
    assert (If : findIndex (has_stop_id fromStopId) listing
                 = Z.of_nat (List.length (pre ++ sd :: mid))).
    { rewrite E.
      replace (pre ++ sd :: mid ++ so :: post)
        with ((pre ++ sd :: mid) ++ so :: post)
        by (rewrite <- app_assoc; reflexivity).
      apply findIndex_first; assumption. }
    rewrite G, If, It.
    replace (Nat.eqb (List.length listing) 0) with false
      by (rewrite E, length_app; cbn [List.length]; symmetry;
          apply Nat.eqb_neq; lia).
    replace ((Z.of_nat (List.length (pre ++ sd :: mid)) =? -1)%Z
             || (Z.of_nat (List.length pre) =? -1)%Z)
      with false
      by (symmetry; apply orb_false_iff; split; apply Z.eqb_neq; lia).
    replace (Z.of_nat (List.length (pre ++ sd :: mid))
             <=? Z.of_nat (List.length pre))%Z with false
      by (symmetry; apply Z.leb_gt; rewrite length_app; cbn [List.length]; lia).
    rewrite E, slice_between. cbn [rev]. rewrite rev_app_distr. reflexivity.
  - intros pre so post E Hso Hsame Apre.
    assert (If : findIndex (has_stop_id fromStopId) listing
                 = Z.of_nat (List.length pre))
      by (rewrite E; apply findIndex_first; assumption).
    rewrite G, Hsame, If.
    replace (Nat.eqb (List.length listing) 0) with false
      by (rewrite E, length_app; cbn [List.length]; symmetry;
          apply Nat.eqb_neq; lia).
    replace ((Z.of_nat (List.length pre) =? -1)%Z
             || (Z.of_nat (List.length pre) =? -1)%Z)
      with false
      by (symmetry; apply orb_false_iff; split; apply Z.eqb_neq; lia).
    rewrite Z.leb_refl, E.
    change (pre ++ so :: post) with (pre ++ [so] ++ post).
    change 1%Z with (Z.of_nat (List.length [so])). rewrite slice_window.
    reflexivity.
  - intros so sd Ef Et. unfold listing in Ef, Et.
    rewrite <- tripListing_listed in Ef, Et.
    destruct (getStopsBetween_window api tripId fromStopId toStopId allStops
                Ef Et)
      as [[_ [pre [mid [post [Hs [_ Hg]]]]]]
         | [[_ [Esame [_ Hg]]] | [_ [pre [mid [post [Hs [_ Hg]]]]]]]];
      rewrite tripListing_listed in *.
    + left. exists pre, mid, post. split; assumption.
    + right; left. split; assumption.
    + right; right. exists pre, mid, post. split; assumption.
Qed.

(** Trip 7 lists the three stops and trip 8 is unknown to the endpoint:
    a failed lookup, a destination that the listing does not have, the
    window in listing order and the reversed window. *)
Lemma getStopsBetween_total_witness :
  getStopsBetween tripApi 8 3 1 [stop0; stop2] = Returned [stop2; stop0] /\
  getStopsBetween tripApi 7 3 9 [stop0; stop2] = Returned [stop2] /\
  getStopsBetween tripApi 7 1 3 [] = Returned [stop0; stop1; stop2] /\
  getStopsBetween tripApi 7 3 2 [] = Returned [stop2; stop1].
Proof.
  split; [| split; [| split]].
  - apply (@getStopsBetween_total Q tripApi 8 3 1 [stop0; stop2]).
    left. reflexivity.
  - apply (@getStopsBetween_total Q tripApi 7 3 9 [stop0; stop2]).
    right. right. right. repeat constructor; discriminate.
  - apply (proj1 (proj2 (proj2 (@getStopsBetween_total Q tripApi 7 1 3 [])))
             [] stop0 [stop1] stop2 []);
      try reflexivity; repeat constructor; discriminate.
  - apply (proj1 (proj2 (proj2 (proj2
                   (@getStopsBetween_total Q tripApi 7 3 2 []))))
             [stop0] stop1 [] stop2 []);
      try reflexivity; repeat constructor; discriminate.
Defined.

(** ** The straight-line fallback *)

Section Fallback.
Variable num : Type.
Variable osrm : OsrmService num.

Lemma osrmCoordinates_unavailable {P} (convert : num * num -> P)
    (r : HttpResult (OsrmData num)) :
  routeUnavailable r = true -> exists e, osrmCoordinates convert r = Thrown e.
Proof.
  unfold routeUnavailable, osrmCoordinates.
  destruct r as [| [] status [data |]]; cbn [negb orb bind];
    try (intros _; eexists; reflexivity).
  destruct (negb (String.eqb (code data) "Ok")); cbn [orb].
  - intros _. eexists. reflexivity.
  - destruct (routes data) as [[| route rest] |];
      try (intros _; eexists; reflexivity).
    destruct (coordinates route); [discriminate |].
    intros _. eexists. reflexivity.
Qed.

Lemma fetchOSRMRoute_fallback (fromLat fromLon toLat toLon : num) :
  routeUnavailable (osrm fromLon fromLat toLon toLat) = true ->
  fetchOSRMRoute osrm fromLat fromLon toLat toLon
  = Returned [ {| latitude := fromLat; longitude := fromLon |};
               {| latitude := toLat; longitude := toLon |} ].
Proof.
  intros H. unfold fetchOSRMRoute.
  destruct (osrmCoordinates_unavailable
              (fun '(lng, lat) => {| latitude := lat; longitude := lng |}) _ H)
    as [e ->].
  reflexivity.
Qed.

Lemma fetchRouteFromOSRM_fallback (start end_ : num * num) :
  routeUnavailable (osrm (snd start) (fst start) (snd end_) (fst end_)) = true ->
  fetchRouteFromOSRM osrm start end_ = Returned [start; end_].
Proof.
  destruct start as [startLat startLng], end_ as [endLat endLng].
  cbn [fst snd]. intros H. unfold fetchRouteFromOSRM.
  destruct (osrmCoordinates_unavailable (fun '(lng, lat) => (lat, lng)) _ H)
    as [e ->].
  reflexivity.
Qed.

Hypothesis down : forall a b c d, routeUnavailable (osrm a b c d) = true.

Lemma down_faithful : endpointFaithful osrm.
Proof.
  intros a b. exists []. unfold roadPoints.
  rewrite fetchOSRMRoute_fallback by apply down. reflexivity.
Qed.

Variable api : TripStopsApi num.
Variable stops : list (Stop num).

Lemma convertSegment_down (segments : list (RouteSegment num))
    (segment : PlanSegment num) :
  exists renderable,
    convertSegment osrm api stops segments segment
    = Returned (segments ++ [renderable]) /\
    isDashed renderable = SegmentType_eqb (type segment) walk /\
    (2 <= List.length (points renderable))%nat.
Proof.
  assert (Hdirect : directRoute osrm segment
                    = Returned [ {| latitude := from_lat segment;
                                    longitude := from_lon segment |};
                                 {| latitude := to_lat segment;
                                    longitude := to_lon segment |} ])
    by (apply fetchOSRMRoute_fallback, down).
  unfold convertSegment. destruct (type segment).
  - rewrite Hdirect. cbn [bind]. eexists. split; [reflexivity |].
    split; [reflexivity | cbn; lia].
  - destruct (truthy_id (trip_id segment)) as [tripId |];
      [destruct (truthy_id (from_stop_id segment)) as [fromStopId |];
       [destruct (truthy_id (to_stop_id segment)) as [toStopId |] | ] | ];
      try (rewrite Hdirect; cbn [bind attempt]; eexists;
           split; [reflexivity | split; [reflexivity | cbn; lia]]).
    rewrite getStopsBetween_unfold. cbn [bind].
    match goal with
    | |- context [(2 <=? List.length ?l)%nat] =>
        set (routeStops := l);
        destruct (Nat.leb_spec 2 (List.length routeStops)) as [L | L]
    end.
    + rewrite stitchStops_stitched. cbn [bind attempt].
      eexists. split; [reflexivity |]. split; [reflexivity |].
      destruct (two_ends _ L) as [a [mid [b ->]]].
      destruct (stitched_connects down_faithful a b mid) as [x ->].
      cbn [points transitSegment List.length]. rewrite length_app.
      cbn [List.length]. lia.
    + rewrite Hdirect. cbn [bind attempt]. eexists.
      split; [reflexivity | split; [reflexivity | cbn; lia]].
Qed.

Lemma convertSegments_down (rest : list (PlanSegment num)) :
  forall segments,
  exists renderables,
    convertSegments osrm api stops segments rest
    = Returned (segments ++ renderables) /\
    List.length renderables = List.length rest /\
    map (@isDashed num) renderables
    = map (fun segment => SegmentType_eqb (type segment) walk) rest /\
    Forall (fun r => (2 <= List.length (points r))%nat) renderables.
Proof.
  induction rest as [| segment rest IH]; intros segments.
  - exists []. cbn. rewrite app_nil_r. repeat split. constructor.
  - destruct (convertSegment_down segments segment) as [r [E [D L]]].
    destruct (IH (segments ++ [r])) as [rs [E' [Len [Ds F]]]].
    exists (r :: rs). cbn [convertSegments]. rewrite E. cbn [bind].
    rewrite E', <- app_assoc. cbn [app List.length map].
    repeat split; [congruence | congruence | constructor; assumption].
Qed.

End Fallback.

(** Claim C5.  When the road-routing call fails, both clients settle with
    the two end points and nothing else.  When every call fails, the
    segments made from a plan are one per leg, in order, each with at
    least two points. *)
Theorem fallback_guarantee (num : Type) (osrm : OsrmService num) :
  (forall fromLat fromLon toLat toLon,
     routeUnavailable (osrm fromLon fromLat toLon toLat) = true ->
     fetchOSRMRoute osrm fromLat fromLon toLat toLon
     = Returned [ {| latitude := fromLat; longitude := fromLon |};
                  {| latitude := toLat; longitude := toLon |} ]) /\
  (forall start end_,
     routeUnavailable (osrm (snd start) (fst start) (snd end_) (fst end_)) = true ->
     fetchRouteFromOSRM osrm start end_ = Returned [start; end_]) /\
  ((forall a b c d, routeUnavailable (osrm a b c d) = true) ->
   forall (api : TripStopsApi num) (stops : list (Stop num)) (plan : Plan num),
   exists renderables,
     convertPlanToSegments osrm api stops plan = Returned renderables /\
     List.length renderables = List.length (segments plan) /\
     map (@isDashed num) renderables
     = map (fun segment => SegmentType_eqb (type segment) walk) (segments plan) /\
     Forall (fun r => (2 <= List.length (points r))%nat) renderables).
Proof.
  split; [| split].
  - apply fetchOSRMRoute_fallback.
  - apply fetchRouteFromOSRM_fallback.
  - intros down api stops plan.
    destruct (@convertSegments_down num osrm down api stops (segments plan) [])
      as [rs [E [Len [Ds F]]]].
    exists rs. repeat split; assumption.
Qed.

Lemma fallback_guarantee_witness :
  fetchOSRMRoute unreachable 0 0 0 3 = Returned [point 0 0; point 0 3] /\
  exists renderables,
    convertPlanToSegments unreachable tripApi [stop0; stop1; stop2]
      {| estimated_duration_minutes := 12;
         segments :=
           [ leg walk 2;
             {| type := transit; from_lat := 0; from_lon := 0;
                to_lat := 0; to_lon := 3; duration_minutes := 10;
                from_stop_id := Some 1%Z; to_stop_id := Some 3%Z;
                trip_id := Some 7%Z |} ] |}
    = Returned renderables /\
    List.length renderables = 2%nat /\
    map (@isDashed Q) renderables = [true; false] /\
    Forall (fun r => (2 <= List.length (points r))%nat) renderables.
Proof.
  split.
  - apply (proj1 (fallback_guarantee unreachable)). reflexivity.
  - apply (proj2 (proj2 (fallback_guarantee unreachable))).
    intros a b c d. reflexivity.
Defined.

(** ** The haversine distance over the reals *)

Section Haversine.
Import Ideal.
Local Open Scope R_scope.

Lemma atan_nonneg (x : R) : 0 <= x -> 0 <= atan x.
Proof.
  intros [L | <-].
  - left. rewrite <- atan_0. apply atan_increasing, L.
  - rewrite atan_0. lra.
Qed.

Lemma atan2_nonneg (y x : R) : 0 <= y -> 0 <= x -> 0 <= atan2 y x.
Proof.
  intros Hy Hx. unfold atan2.
  destruct (Rlt_dec 0 x) as [Px | Px].
  - apply atan_nonneg. apply Rmult_le_pos; [exact Hy |].
    left. apply Rinv_0_lt_compat, Px.
  - destruct (Rlt_dec x 0) as [Nx | Nx]; [lra |].
    destruct (Rlt_dec 0 y) as [Py | Py].
    + pose proof PI_RGT_0. lra.
    + destruct (Rlt_dec y 0); lra.
Qed.

Lemma atan2_0_1 : atan2 0 1 = 0.
Proof.
  unfold atan2. destruct (Rlt_dec 0 1) as [_ | N]; [| lra].
  replace (0 / 1) with 0 by field. apply atan_0.
Qed.

Lemma hav_sym (lat1 lng1 lat2 lng2 : R) :
  hav lat1 lng1 lat2 lng2 = hav lat2 lng2 lat1 lng1.
Proof.
  unfold hav.
  replace ((lat1 - lat2) * PI / 180 / 2)
    with (- ((lat2 - lat1) * PI / 180 / 2)) by field.
  replace ((lng1 - lng2) * PI / 180 / 2)
    with (- ((lng2 - lng1) * PI / 180 / 2)) by field.
  rewrite !sin_neg. ring.
Qed.

Lemma hav_same (lat1 lng1 : R) : hav lat1 lng1 lat1 lng1 = 0.
Proof.
  unfold hav.
  replace ((lat1 - lat1) * PI / 180 / 2) with 0 by field.
  replace ((lng1 - lng1) * PI / 180 / 2) with 0 by field.
  rewrite sin_0. ring.
Qed.

Lemma calculateDistance_hav (lat1 lng1 lat2 lng2 : R) :
  Routes.calculateDistance (lat1, lng1) (lat2, lng2)
  = 6371 * (2 * atan2 (sqrt (hav lat1 lng1 lat2 lng2))
                      (sqrt (1 - hav lat1 lng1 lat2 lng2))).
Proof. reflexivity. Qed.

Lemma walkingDistance_hav (lat1 lon1 lat2 lon2 : R) :
  walkingDistance lat1 lon1 lat2 lon2
  = 6371000 * (2 * atan2 (sqrt (hav lat1 lon1 lat2 lon2))
                         (sqrt (1 - hav lat1 lon1 lat2 lon2))).
Proof. reflexivity. Qed.

Lemma angle_nonneg (h : R) : 0 <= 2 * atan2 (sqrt h) (sqrt (1 - h)).
Proof.
  pose proof (atan2_nonneg (sqrt_pos h) (sqrt_pos (1 - h))). lra.
Qed.

Lemma angle_same : 2 * atan2 (sqrt 0) (sqrt (1 - 0)) = 0.
Proof.
  rewrite sqrt_0. replace (1 - 0) with 1 by ring.
  rewrite sqrt_1, atan2_0_1. ring.
Qed.

Lemma round_nonneg (x : R) : 0 <= x -> 0 <= round x.
Proof.
  intros Hx. unfold round.
  destruct (base_Int_part (x + 1 / 2)) as [_ L].
  apply IZR_le.
  assert (Hlt : IZR (-1) < IZR (Int_part (x + 1 / 2))) by lra.
  apply lt_IZR in Hlt. lia.
Qed.

Lemma round_0 : round 0 = 0.
Proof.
  unfold round. destruct (base_Int_part (0 + 1 / 2)) as [U L].
  assert (H1 : IZR (-1) < IZR (Int_part (0 + 1 / 2))) by lra.
  assert (H2 : IZR (Int_part (0 + 1 / 2)) < IZR 1) by lra.
  apply lt_IZR in H1. apply lt_IZR in H2.
  replace (Int_part (0 + 1 / 2)) with 0%Z by lia. reflexivity.
Qed.

Lemma calculateDistance_sym (a b : R * R) :
  Routes.calculateDistance a b = Routes.calculateDistance b a.
Proof.
  destruct a as [lat1 lng1], b as [lat2 lng2].
  rewrite !calculateDistance_hav, hav_sym. reflexivity.
Qed.

Lemma calculateDistance_same (a : R * R) : Routes.calculateDistance a a = 0.
Proof.
  destruct a as [lat1 lng1].
  rewrite calculateDistance_hav, hav_same, angle_same. ring.
Qed.

Lemma calculateDistance_nonneg (a b : R * R) : 0 <= Routes.calculateDistance a b.
Proof.
  destruct a as [lat1 lng1], b as [lat2 lng2]. rewrite calculateDistance_hav.
  pose proof (angle_nonneg (hav lat1 lng1 lat2 lng2)). lra.
Qed.

(** What the formula means.  Over the real numbers, the distance of
    [utils/routes.ts] and the distance inside [calculateWalkingTime] are
    symmetric, vanish between a point and itself and are never negative;
    the walking time rounded from the distance inherits the three
    properties. *)
Theorem distance_symmetry_identity :
  (forall a b : R * R,
     Routes.calculateDistance a b = Routes.calculateDistance b a /\
     Routes.calculateDistance a a = 0 /\
     0 <= Routes.calculateDistance a b) /\
  (forall lat1 lon1 lat2 lon2 : R,
     walkingDistance lat1 lon1 lat2 lon2 = walkingDistance lat2 lon2 lat1 lon1 /\
     walkingDistance lat1 lon1 lat1 lon1 = 0 /\
     0 <= walkingDistance lat1 lon1 lat2 lon2) /\
  (forall lat1 lon1 lat2 lon2 : R,
     calculateWalkingTime lat1 lon1 lat2 lon2
     = calculateWalkingTime lat2 lon2 lat1 lon1 /\
     calculateWalkingTime lat1 lon1 lat1 lon1 = 0 /\
     0 <= calculateWalkingTime lat1 lon1 lat2 lon2).
Proof.
  split; [| split].
  - intros a b. split; [| split].
    + apply calculateDistance_sym.
    + apply calculateDistance_same.
    + apply calculateDistance_nonneg.
  - intros lat1 lon1 lat2 lon2. rewrite !walkingDistance_hav.
    split; [| split].
    + rewrite hav_sym. reflexivity.
    + rewrite hav_same, angle_same. ring.
    + pose proof (angle_nonneg (hav lat1 lon1 lat2 lon2)). lra.
  - intros lat1 lon1 lat2 lon2. unfold calculateWalkingTime.
    cbn [Math_round ndiv ofZ Number_R MathLibrary_R].
    rewrite !walkingDistance_hav. split; [| split].
    + rewrite hav_sym. reflexivity.
    + rewrite hav_same, angle_same.
      replace (6371000 * 0 / 80) with 0 by field. apply round_0.
    + apply round_nonneg.
      pose proof (angle_nonneg (hav lat1 lon1 lat2 lon2)). lra.
Qed.

End Haversine.

(** ** The formula of the code and the haversine distance *)

Section HaversineIdeal.
Local Open Scope R_scope.

Lemma sin_sqr_half (u : R) : (sin (u / 2))² = (1 - cos u) / 2.
Proof.
  replace u with (2 * (u / 2)) at 2 by field.
  rewrite cos_2a_sin. unfold Rsqr. field.
Qed.

(** With the longitudes half a turn apart the quantity [a] is
    [(1 + cos (x + y)) / 2]. *)
Lemma hav_opposite (x y : R) :
  (sin ((y - x) / 2))² + cos x * cos y = (1 + cos (x + y)) / 2.
Proof.
  rewrite sin_sqr_half, cos_minus, cos_plus. field.
Qed.

Lemma sqr_bounds (x : R) : -1 <= x <= 1 -> 0 <= x² <= 1.
Proof.
  intros [L U]. unfold Rsqr. split; nra.
Qed.

(** The quantity [a] lies between 0 and 1. *)
Lemma hav_term_bounds (x y l : R) :
  0 <= (sin ((y - x) / 2))² + cos x * cos y * (sin l)² <= 1.
Proof.
  pose proof (hav_opposite x y) as E.
  pose proof (sqr_bounds (SIN_bound ((y - x) / 2))) as A.
  pose proof (sqr_bounds (SIN_bound l)) as S.
  pose proof (COS_bound (x + y)) as C.
  set (a := (sin ((y - x) / 2))²) in *. set (s := (sin l)²) in *.
  set (cc := cos x * cos y) in *.
  assert (Ecc : cc = (1 + cos (x + y)) / 2 - a) by lra.
  rewrite Ecc. split; nra.
Qed.

Lemma asin_sqrt (a : R) :
  0 <= a <= 1 -> Ideal.atan2 (sqrt a) (sqrt (1 - a)) = asin (sqrt a).
Proof.
  intros [L U]. unfold Ideal.atan2.
  destruct U as [U | ->].
  - assert (P : 0 < sqrt (1 - a)) by (apply sqrt_lt_R0; lra).
    destruct (Rlt_dec 0 (sqrt (1 - a))) as [_ | N]; [| contradiction].
    assert (S1 : sqrt a < 1).
    { rewrite <- sqrt_1. apply sqrt_lt_1; lra. }
    pose proof (sqrt_pos a) as S0.
    rewrite asin_atan by lra.
    unfold Rsqr. rewrite sqrt_sqrt by exact L. reflexivity.
  - replace (1 - 1) with 0 by ring. rewrite sqrt_0, sqrt_1, asin_1.
    destruct (Rlt_dec 0 0) as [N | _]; [lra |].
    destruct (Rlt_dec 0 0) as [N | _]; [lra |].
    destruct (Rlt_dec 0 1) as [_ | N]; [reflexivity | lra].
Qed.

Lemma hav_textbook (lat1 lng1 lat2 lng2 : R) :
  hav lat1 lng1 lat2 lng2
  = (sin ((radians lat2 - radians lat1) / 2))²
    + cos (radians lat1) * cos (radians lat2)
      * (sin ((radians lng2 - radians lng1) / 2))².
Proof.
  unfold hav, radians, Rsqr.
  replace ((lat2 - lat1) * PI / 180 / 2)
    with ((lat2 * PI / 180 - lat1 * PI / 180) / 2) by field.
  replace ((lng2 - lng1) * PI / 180 / 2)
    with ((lng2 * PI / 180 - lng1 * PI / 180) / 2) by field.
  ring.
Qed.

(** Over the real numbers [calculateDistance] is the haversine
    distance. *)
Lemma calculateDistance_haversine (p q : R * R) :
  Routes.calculateDistance p q = haversine p q.
Proof.
  destruct p as [lat1 lng1], q as [lat2 lng2].
  rewrite calculateDistance_hav. unfold haversine.
  rewrite <- hav_textbook.
  rewrite asin_sqrt; [ring |].
  rewrite hav_textbook. apply hav_term_bounds.
Qed.

Lemma asin_lt (x y : R) : -1 <= x -> x < y -> y <= 1 -> asin x < asin y.
Proof.
  intros Lx Lxy Ly.
  destruct (asin_bound x) as [X1 X2]. destruct (asin_bound y) as [Y1 Y2].
  apply sin_increasing_0; try assumption.
  rewrite !sin_asin by lra. exact Lxy.
Qed.

(** From near the antipode of the first stop of the catalog, the last
    stop is nearer than the first. *)
Lemma metroTech_is_nearer :
  haversine userNearAntipode (position metroTechStop)
  < haversine userNearAntipode (position washingtonSquareStop).
Proof.
  unfold haversine, userNearAntipode, position, metroTechStop,
    washingtonSquareStop.
  cbn [Routes.lat Routes.lng ofZ ndiv Number_R].
  set (x := radians (-407305006 / 10000000)).
  set (y0 := radians (407305 / 10000)).
  set (y3 := radians (406930 / 10000)).
  set (l3 := (radians (-739855 / 10000) - radians (1060025 / 10000)) / 2).
  pose proof PI_RGT_0 as Hpi.
  assert (El0 : (radians (-739975 / 10000) - radians (1060025 / 10000)) / 2
                = - (PI / 2)) by (unfold radians; field).
  rewrite El0, sin_neg, sin_PI2.
  replace ((- (1))²) with 1 by (unfold Rsqr; ring).
  rewrite Rmult_1_r, hav_opposite.
  pose proof (hav_opposite x y3) as E3.
  pose proof (hav_term_bounds x y3 l3) as B3.
  pose proof (sqr_bounds (SIN_bound l3)) as S3.
  assert (Ex0 : x + y0 = - (6 / 10000000 * PI / 180))
    by (unfold x, y0, radians; field).
  assert (Ex3 : x + y3 = - (375006 / 10000000 * PI / 180))
    by (unfold x, y3, radians; field).
  assert (C03 : cos (x + y3) < cos (x + y0)).
  { rewrite Ex0, Ex3, !cos_neg. apply cos_decreasing_1; lra. }
  assert (C0 : 0 < cos (x + y0)).
  { rewrite Ex0, cos_neg. apply cos_gt_0; lra. }
  assert (A3 : (sin ((y3 - x) / 2))² < 1 / 2).
  { rewrite sin_sqr_half.
    assert (0 < cos (y3 - x)).
    { apply cos_gt_0; unfold x, y3, radians; lra. }
    lra. }
  pose proof (COS_bound (x + y0)) as Cb.
  pose proof (sqr_bounds (SIN_bound ((y3 - x) / 2))) as A3b.
  set (a3 := (sin ((y3 - x) / 2))² + cos x * cos y3 * (sin l3)²) in *.
  assert (Hlt : a3 < (1 + cos (x + y0)) / 2).
  { unfold a3.
    set (A := (sin ((y3 - x) / 2))²) in *. set (s := (sin l3)²) in *.
    assert (Ecc : cos x * cos y3 = (1 + cos (x + y3)) / 2 - A) by lra.
    rewrite Ecc.
    assert (P1 : 0 <= (cos (x + y0) - cos (x + y3)) * s)
      by (apply Rmult_le_pos; lra).
    assert (P2 : 0 <= ((1 + cos (x + y0)) / 2 - A) * (1 - s))
      by (apply Rmult_le_pos; lra).
    destruct (Rlt_dec s 1) as [L | L].
    - assert (Q2 : 0 < ((1 + cos (x + y0)) / 2 - A) * (1 - s))
        by (apply Rmult_lt_0_compat; lra).
      nra.
    - assert (Es : s = 1) by lra. rewrite Es. lra. }
  assert (Hs : sqrt a3 < sqrt ((1 + cos (x + y0)) / 2))
    by (apply sqrt_lt_1; lra).
  assert (Ha : asin (sqrt a3) < asin (sqrt ((1 + cos (x + y0)) / 2))).
  { apply asin_lt; [| exact Hs |].
    - pose proof (sqrt_pos a3). lra.
    - apply Rle_trans with (sqrt 1); [apply sqrt_le_1; lra |].
      rewrite sqrt_1. lra. }
  lra.
Qed.

End HaversineIdeal.

(** ** The nearest stop *)

Section NearestAny.
Context {num : Type} `{Number num} `{MathLibrary num}.

Lemma nearer_among (userLocation : num * num) (l : list (Routes.BusStop num)) :
  forall best, In (fst (fold_left (Routes.nearer userLocation) l best))
                  (fst best :: l).
Proof.
  induction l as [| x l IH]; intros [b d]; cbn [fold_left fst].
  - left. reflexivity.
  - assert (Hstep : fst (Routes.nearer userLocation (b, d) x) = b
                    \/ fst (Routes.nearer userLocation (b, d) x) = x).
    { unfold Routes.nearer. destruct (nltb _ d); cbn [fst]; auto. }
    destruct (IH (Routes.nearer userLocation (b, d) x)) as [E | Hin].
    + rewrite <- E. destruct Hstep as [-> | ->]; cbn [In]; auto.
    + right. right. exact Hin.
Qed.

Lemma findNearestBusStop_nonempty (catalog : list (Routes.BusStop num))
    (userLocation : num * num) :
  catalog <> [] ->
  exists stop,
    Routes.findNearestBusStop catalog userLocation = Returned stop /\
    In stop catalog.
Proof.
  destruct catalog as [| first rest]; [intros N; destruct N; reflexivity |].
  intros _. eexists. split; [reflexivity |].
  match goal with
  | |- In (fst (fold_left _ ?l ?best)) _ =>
      destruct (nearer_among userLocation l best) as [<- | Hin]
  end; [left; reflexivity | exact Hin].
Qed.

(** The web resolver when the routing service fails throughout: two
    segments, the walk to the nearest stop and the ride, of two points
    each. *)
Lemma generateShuttleRoute_fallback (osrm : OsrmService num)
    (catalog : list (Routes.BusStop num)) (userLocation : num * num)
    (destination : Routes.Location num) :
  (forall a b c d, routeUnavailable (osrm a b c d) = true) ->
  catalog <> [] ->
  exists stop,
    In stop catalog /\
    Routes.generateShuttleRoute osrm catalog userLocation destination
    = Returned
        [ {| Routes.points :=
               [userLocation; (Routes.lat stop, Routes.lng stop)];
             Routes.color := "#6b7280" |};
          {| Routes.points :=
               [(Routes.lat stop, Routes.lng stop);
                (Routes.lat destination, Routes.lng destination)];
             Routes.color := Routes.getRouteColor (Routes.id destination) |} ].
Proof.
  intros down Hne.
  destruct (findNearestBusStop_nonempty userLocation Hne) as [stop [E Hin]].
  exists stop. split; [exact Hin |].
  unfold Routes.generateShuttleRoute. rewrite E. cbn [bind].
  rewrite !fetchRouteFromOSRM_fallback by apply down. reflexivity.
Qed.



End NearestAny.


Section NearestIdeal.
Local Open Scope R_scope.
Variable userLocation : R * R.

Lemma Rltb_true (x y : R) : Ideal.Rltb x y = true <-> x < y.
Proof.
  unfold Ideal.Rltb. destruct (Rlt_dec x y); split; intros; try assumption;
    try reflexivity; try discriminate; contradiction.
Qed.

(** The loop keeps a stop that is strictly nearer than every stop before
    it in the catalog and at least as near as every stop seen after it. *)
Lemma nearer_first_minimum (l : list (Routes.BusStop R)) :
  forall pre b post,
    (forall s, In s pre -> distanceTo userLocation b < distanceTo userLocation s) ->
    (forall s, In s post -> distanceTo userLocation b <= distanceTo userLocation s) ->
    exists pre' b' post',
      pre ++ b :: post ++ l = pre' ++ b' :: post' /\
      fold_left (Routes.nearer userLocation) l (b, distanceTo userLocation b)
      = (b', distanceTo userLocation b') /\
      (forall s, In s pre' ->
         distanceTo userLocation b' < distanceTo userLocation s) /\
      (forall s, In s post' ->
         distanceTo userLocation b' <= distanceTo userLocation s).
Proof.
  induction l as [| x l IH]; intros pre b post Hpre Hpost.
  - exists pre, b, post. rewrite app_nil_r. repeat split; assumption.
  - cbn [fold_left]. unfold Routes.nearer at 2.
    fold (distanceTo userLocation x).
    cbn [nltb Number_R].
    destruct (Ideal.Rltb (distanceTo userLocation x) (distanceTo userLocation b))
      eqn:E.
    + apply Rltb_true in E.
      destruct (IH (pre ++ b :: post) x []) as [pre' [b' [post' [S [F [P1 P2]]]]]].
      * intros s Hs. apply in_app_or in Hs. destruct Hs as [Hs | [<- | Hs]].
        -- specialize (Hpre s Hs). lra.
        -- exact E.
        -- specialize (Hpost s Hs). lra.
      * intros s [].
      * exists pre', b', post'. split; [| repeat split; assumption].
        rewrite <- S. rewrite <- !app_assoc. reflexivity.
    + assert (Hge : distanceTo userLocation b <= distanceTo userLocation x).
      { destruct (Rle_dec (distanceTo userLocation b) (distanceTo userLocation x))
          as [L | L]; [exact L |].
        assert (Hlt : distanceTo userLocation x < distanceTo userLocation b) by lra.
        apply Rltb_true in Hlt. congruence. }
      destruct (IH pre b (post ++ [x])) as [pre' [b' [post' [S [F [P1 P2]]]]]].
      * exact Hpre.
      * intros s Hs. apply in_app_or in Hs. destruct Hs as [Hs | [<- | []]];
          [apply Hpost, Hs | exact Hge].
      * exists pre', b', post'. split; [| repeat split; assumption].
        rewrite <- S. rewrite <- !app_assoc. reflexivity.
Qed.

Lemma findNearestBusStop_first_minimum (first : Routes.BusStop R)
    (rest : list (Routes.BusStop R)) :
  exists pre stop post,
    first :: rest = pre ++ stop :: post /\
    Routes.findNearestBusStop (first :: rest) userLocation = Returned stop /\
    (forall s, In s pre ->
       distanceTo userLocation stop < distanceTo userLocation s) /\
    (forall s, In s post ->
       distanceTo userLocation stop <= distanceTo userLocation s).
Proof.
  destruct (nearer_first_minimum rest [] first [])
    as [pre [stop [post [S [F [P1 P2]]]]]]; try (intros s []).
  exists pre, stop, post. split; [exact S |]. split; [| split; assumption].
  unfold Routes.findNearestBusStop. cbn [fold_left].
  unfold Routes.nearer at 2. fold (distanceTo userLocation first).
  cbn [nltb Number_R].
  replace (Ideal.Rltb (distanceTo userLocation first)
                     (distanceTo userLocation first)) with false.
  - rewrite F. reflexivity.
  - symmetry. destruct (Ideal.Rltb _ _) eqn:E; [| reflexivity].
    apply Rltb_true in E. lra.
Qed.

End NearestIdeal.

(** What the loop does in exact arithmetic.  Over the real numbers and
    for a non-empty catalog, the stop returned is at a position of the
    catalog such that every stop is at least as far from the point by the
    haversine distance, and every stop before that position is strictly
    farther, so that among equidistant nearest stops the first one
    wins. *)
Lemma nearest_minimises_haversine (catalog : list (Routes.BusStop R))
    (userLocation : R * R) :
  catalog <> [] ->
  exists pre stop post,
    catalog = pre ++ stop :: post /\
    Routes.findNearestBusStop catalog userLocation = Returned stop /\
    (forall s, In s catalog ->
       (haversine userLocation (position stop)
        <= haversine userLocation (position s))%R) /\
    (forall s, In s pre ->
       (haversine userLocation (position stop)
        < haversine userLocation (position s))%R).
Proof.
  intros Hne.
  destruct catalog as [| first rest]; [destruct Hne; reflexivity |].
  destruct (findNearestBusStop_first_minimum userLocation first rest)
    as [pre [stop [post [S [F [P1 P2]]]]]].
  unfold distanceTo in P1, P2.
  exists pre, stop, post. split; [exact S |]. split; [exact F |].
  unfold position. split.
  - intros s Hs. rewrite <- !calculateDistance_haversine.
    rewrite S in Hs. apply in_app_or in Hs.
    destruct Hs as [Hs | [<- | Hs]].
    + left. apply P1, Hs.
    + right. reflexivity.
    + apply P2, Hs.
  - intros s Hs. rewrite <- !calculateDistance_haversine. apply P1, Hs.
Qed.

(** The catalog [[(0, 0, "A"), (0, 0.001, "B")]] and the point [(0, 0)],
    in exact arithmetic. *)
Lemma nearest_of_two :
  Routes.findNearestBusStop [stopA; stopB] (0%R, 0%R) = Returned stopA.
Proof.
  destruct (findNearestBusStop_first_minimum (0%R, 0%R) stopA [stopB])
    as [pre [stop [post [S [F [P1 P2]]]]]].
  rewrite F. f_equal.
  destruct pre as [| x pre].
  - injection S as <- _. reflexivity.
  - injection S as <- S'.
    assert (Hd : (distanceTo (0%R, 0%R) stop < distanceTo (0%R, 0%R) stopA)%R)
      by (apply P1; left; reflexivity).
    assert (H0 : distanceTo (0%R, 0%R) stopA = 0%R)
      by apply (calculateDistance_same (0%R, 0%R)).
    pose proof (calculateDistance_nonneg (0%R, 0%R)
                  (Routes.lat stop, Routes.lng stop)) as Hpos.
    unfold distanceTo in *. lra.
Qed.

(** ** The distance and the nearest stop in binary64 *)

Section FloatFacts.
Local Open Scope float_scope.

Lemma nan_SF (x : float) : is_nan x = true -> Prim2SF x = S754_nan.
Proof.
  unfold is_nan. rewrite eqb_spec.
  destruct (Prim2SF x) as [s | s | | s m e]; cbn;
    try discriminate; try reflexivity.
  - destruct s; discriminate.
  - unfold SFeqb, SFcompare. rewrite Z.compare_refl, Pos.compare_cont_refl.
    destruct s; discriminate.
Qed.

Lemma SF_nan (x : float) : Prim2SF x = S754_nan -> is_nan x = true.
Proof.
  intros E. unfold is_nan. rewrite eqb_spec, E. reflexivity.
Qed.

Lemma mul_nan_r (x y : float) : is_nan y = true -> is_nan (x * y) = true.
Proof.
  intros N. apply SF_nan. rewrite mul_spec, (nan_SF _ N).
  destruct (Prim2SF x); reflexivity.
Qed.

Lemma div_nan_l (x y : float) : is_nan x = true -> is_nan (x / y) = true.
Proof.
  intros N. apply SF_nan. rewrite div_spec, (nan_SF _ N). reflexivity.
Qed.

(** No number is below, equal to or at most [NaN]. *)
Lemma ltb_nan_r (x y : float) : is_nan y = true -> (x <? y) = false.
Proof.
  intros N. rewrite ltb_spec, (nan_SF _ N).
  destruct (Prim2SF x); reflexivity.
Qed.

Lemma leb_nan_l (x y : float) : is_nan x = true -> (x <=? y) = false.
Proof.
  intros N. rewrite leb_spec, (nan_SF _ N). reflexivity.
Qed.

Lemma leb_nan_r (x y : float) : is_nan y = true -> (x <=? y) = false.
Proof.
  intros N. rewrite leb_spec, (nan_SF _ N).
  destruct (Prim2SF x); reflexivity.
Qed.

Lemma eqb_nan_l (x y : float) : is_nan x = true -> (x =? y) = false.
Proof.
  intros N. rewrite eqb_spec, (nan_SF _ N). reflexivity.
Qed.

(** The IEEE square root of a number below zero is [NaN]. *)
Lemma sqrt_below_zero (x : float) :
  (x <? 0) = true -> is_nan (PrimFloat.sqrt x) = true.
Proof.
  intros L. apply SF_nan. rewrite sqrt_spec. rewrite ltb_spec in L.
  change (Prim2SF 0) with (S754_zero false) in L.
  destruct (Prim2SF x) as [s | s | | s m e]; cbn in L; try discriminate.
  - destruct s; [reflexivity | discriminate].
  - destruct s; [reflexivity | discriminate].
Qed.

End FloatFacts.

Section HaversineBinary64.
Context {engine : MathLibrary float}.
Local Open Scope js_scope.

(** What ECMAScript requires of every implementation: [Math.sqrt] of a
    number below zero is [NaN]; [Math.atan2] and [Math.round] of [NaN] are
    [NaN]. *)
Hypothesis sqrt_of_negative :
  forall x : float, (x <? ofZ 0) = true -> PrimFloat.is_nan (Math_sqrt x) = true.
Hypothesis atan2_of_nan :
  forall y x : float,
    PrimFloat.is_nan x = true -> PrimFloat.is_nan (Math_atan2 y x) = true.
Hypothesis round_of_nan :
  forall x : float,
    PrimFloat.is_nan x = true -> PrimFloat.is_nan (Math_round x) = true.

(** The two distances in terms of the quantity [a]. *)
Lemma calculateDistance_term (lat1 lng1 lat2 lng2 : float) :
  Routes.calculateDistance (lat1, lng1) (lat2, lng2)
  = ofZ 6371
    * (ofZ 2 * Math_atan2 (Math_sqrt (haversineTerm lat1 lng1 lat2 lng2))
                          (Math_sqrt (ofZ 1 - haversineTerm lat1 lng1 lat2 lng2))).
Proof. reflexivity. Qed.

Lemma walkingDistance_term (lat1 lon1 lat2 lon2 : float) :
  walkingDistance lat1 lon1 lat2 lon2
  = ofZ 6371000
    * (ofZ 2 * Math_atan2 (Math_sqrt (haversineTerm lat1 lon1 lat2 lon2))
                          (Math_sqrt (ofZ 1 - haversineTerm lat1 lon1 lat2 lon2))).
Proof. reflexivity. Qed.

Lemma angle_nan (a : float) :
  (ofZ 1 - a <? ofZ 0) = true ->
  PrimFloat.is_nan (ofZ 2 * Math_atan2 (Math_sqrt a) (Math_sqrt (ofZ 1 - a)))
  = true.
Proof.
  intros L. apply mul_nan_r, atan2_of_nan, sqrt_of_negative, L.
Qed.

Lemma calculateDistance_nan (lat1 lng1 lat2 lng2 : float) :
  (ofZ 1 - haversineTerm lat1 lng1 lat2 lng2 <? ofZ 0) = true ->
  PrimFloat.is_nan (Routes.calculateDistance (lat1, lng1) (lat2, lng2)) = true.
Proof.
  intros L. rewrite calculateDistance_term. apply mul_nan_r, angle_nan, L.
Qed.

Lemma walkingDistance_nan (lat1 lon1 lat2 lon2 : float) :
  (ofZ 1 - haversineTerm lat1 lon1 lat2 lon2 <? ofZ 0) = true ->
  PrimFloat.is_nan (walkingDistance lat1 lon1 lat2 lon2) = true.
Proof.
  intros L. rewrite walkingDistance_term. apply mul_nan_r, angle_nan, L.
Qed.

(** Claim C9, where the code fails it.  In binary64 the quantity [a] of
    the formula can round above 1.  Whenever [1 - a] is below zero, the code
    takes its square root: the distance of [utils/routes.ts], the distance
    inside [calculateWalkingTime] and the walking time are [NaN], whatever
    [Math] implementation runs the code.  A [NaN] distance is not equal to
    the distance taken the other way round and is not 0 or more. *)
Theorem distance_not_a_number (lat1 lng1 lat2 lng2 : float) :
  (ofZ 1 - haversineTerm lat1 lng1 lat2 lng2 <? ofZ 0) = true ->
  let d := Routes.calculateDistance (lat1, lng1) (lat2, lng2) in
  let w := walkingDistance lat1 lng1 lat2 lng2 in
  let t := calculateWalkingTime lat1 lng1 lat2 lng2 in
  (PrimFloat.is_nan d = true /\
   PrimFloat.eqb d (Routes.calculateDistance (lat2, lng2) (lat1, lng1)) = false /\
   PrimFloat.leb (ofZ 0) d = false) /\
  (PrimFloat.is_nan w = true /\
   PrimFloat.eqb w (walkingDistance lat2 lng2 lat1 lng1) = false /\
   PrimFloat.leb (ofZ 0) w = false) /\
  (PrimFloat.is_nan t = true /\
   PrimFloat.eqb t (calculateWalkingTime lat2 lng2 lat1 lng1) = false /\
   PrimFloat.leb (ofZ 0) t = false).
Proof.
  intros L d w t.
  assert (Nd : PrimFloat.is_nan d = true) by (apply calculateDistance_nan, L).
  assert (Nw : PrimFloat.is_nan w = true) by (apply walkingDistance_nan, L).
  assert (Nt : PrimFloat.is_nan t = true).
  { unfold t, calculateWalkingTime. apply round_of_nan, div_nan_l, Nw. }
  repeat split; try assumption;
    first [apply eqb_nan_l; assumption | apply leb_nan_r; assumption].
Qed.

(** Once the smallest distance so far is [NaN], no stop replaces the
    nearest one so far. *)
Lemma nearer_nan (userLocation : float * float)
    (l : list (Routes.BusStop float)) (best : Routes.BusStop float) (m : float) :
  PrimFloat.is_nan m = true ->
  fold_left (Routes.nearer userLocation) l (best, m) = (best, m).
Proof.
  intros N. induction l as [| s l IH]; cbn [fold_left]; [reflexivity |].
  unfold Routes.nearer at 2. cbn [nltb Number_float].
  rewrite ltb_nan_r by exact N. exact IH.
Qed.

(** Claim C8, where the code fails it.  In binary64, whenever [1 - a] is
    below zero for the first stop of the catalog, the distance to that
    stop is [NaN], no later distance compares below it, and the lookup
    returns the first stop whatever the other stops are.  Its distance is
    not a minimum: it is not at most the distance of any stop. *)
Theorem nearest_is_first_when_nan (first : Routes.BusStop float)
    (rest : list (Routes.BusStop float)) (userLocation : float * float) :
  (ofZ 1 - haversineTerm (fst userLocation) (snd userLocation)
             (Routes.lat first) (Routes.lng first) <? ofZ 0) = true ->
  Routes.findNearestBusStop (first :: rest) userLocation = Returned first /\
  PrimFloat.is_nan (distanceTo userLocation first) = true /\
  (forall stop,
     PrimFloat.leb (distanceTo userLocation first)
                   (distanceTo userLocation stop) = false).
Proof.
  intros L. destruct userLocation as [lat0 lng0]. cbn [fst snd] in L.
  assert (N : PrimFloat.is_nan (distanceTo (lat0, lng0) first) = true)
    by (apply calculateDistance_nan, L).
  split; [| split; [exact N | intros stop; apply leb_nan_l, N]].
  unfold Routes.findNearestBusStop.
  fold (distanceTo (lat0, lng0) first).
  rewrite nearer_nan by exact N. reflexivity.
Qed.

End HaversineBinary64.

Lemma observed_atan2_nan (y x : float) :
  PrimFloat.is_nan x = true -> PrimFloat.is_nan (Observed.atan2 y x) = true.
Proof.
  intros N. unfold Observed.atan2. rewrite N, orb_true_r. reflexivity.
Qed.

Lemma observed_round_nan (x : float) :
  PrimFloat.is_nan x = true -> PrimFloat.is_nan (Observed.round x) = true.
Proof.
  intros N. unfold Observed.round. rewrite N. reflexivity.
Qed.

Local Abbreviation observedDistance :=
  (@Routes.calculateDistance float _ Observed.Math).
Local Abbreviation observedWalk := (@walkingDistance float _ Observed.Math).
Local Abbreviation observedWalkingTime :=
  (@calculateWalkingTime float _ Observed.Math).

(** From [(12, 0)] to [(-12, 180)], two places that are antipodes of each
    other: [a] is [1.0000000000000002] and the three results are
    [NaN]. *)
Lemma distance_not_a_number_witness :
  let d := observedDistance (12%float, 0%float) ((-12)%float, 180%float) in
  let w := observedWalk 12%float 0%float (-12)%float 180%float in
  let t := observedWalkingTime 12%float 0%float (-12)%float 180%float in
  (PrimFloat.is_nan d = true /\
   PrimFloat.eqb d (observedDistance ((-12)%float, 180%float)
                      (12%float, 0%float)) = false /\
   PrimFloat.leb 0%float d = false) /\
  (PrimFloat.is_nan w = true /\
   PrimFloat.eqb w (observedWalk (-12)%float 180%float 12%float 0%float)
   = false /\
   PrimFloat.leb 0%float w = false) /\
  (PrimFloat.is_nan t = true /\
   PrimFloat.eqb t (observedWalkingTime (-12)%float 180%float 12%float 0%float)
   = false /\
   PrimFloat.leb 0%float t = false).
Proof.
  apply (@distance_not_a_number Observed.Math).
  - apply sqrt_below_zero.
  - apply observed_atan2_nan.
  - apply observed_round_nan.
  - vm_compute. reflexivity.
Defined.

(** The same run, step by step: the quantity [a] in both directions, and
    the distance from a place to itself, which is 0. *)
Example term_above_one :
  @haversineTerm float _ Observed.Math 12%float 0%float (-12)%float 180%float
  = 0x1.0000000000001p+0%float /\                     (* 1.0000000000000002 *)
  @haversineTerm float _ Observed.Math (-12)%float 180%float 12%float 0%float
  = 0x1.0000000000001p+0%float /\
  observedDistance (12%float, 0%float) (12%float, 0%float) = 0%float /\
  observedWalkingTime 12%float 0%float 12%float 0%float = 0%float.
Proof. vm_compute. repeat split. Qed.

Example term_above_one_first_stop :
  @haversineTerm float _ Observed.Math
     (fst userNearAntipode) (snd userNearAntipode)
     (Routes.lat washingtonSquareStop) (Routes.lng washingtonSquareStop)
  = 0x1.0000000000001p+0%float.                        (* 1.0000000000000002 *)
Proof. vm_compute. reflexivity. Qed.

(** A user at [[-40.7305006, 106.0025]], near the antipode of the first
    stop of [BUS_STOPS]: the lookup returns that stop, the distance to it
    being [NaN], although the last stop of the catalog is nearer by the
    haversine distance. *)
Lemma nearest_is_first_when_nan_witness :
  @Routes.findNearestBusStop float _ Observed.Math Routes.BUS_STOPS
     userNearAntipode
  = Returned washingtonSquareStop /\
  PrimFloat.is_nan
    (@distanceTo float _ Observed.Math userNearAntipode washingtonSquareStop)
  = true /\
  In metroTechStop (Routes.BUS_STOPS (num := float)) /\
  (haversine userNearAntipode (position metroTechStop)
   < haversine userNearAntipode (position washingtonSquareStop))%R.
Proof.
  destruct (@nearest_is_first_when_nan Observed.Math sqrt_below_zero
              observed_atan2_nan washingtonSquareStop
              (tl Routes.BUS_STOPS) userNearAntipode) as [E [N _]].
  - vm_compute. reflexivity.
  - split; [exact E |]. split; [exact N |].
    split; [right; right; right; left; reflexivity |].
    apply metroTech_is_nearer.
Defined.

(** ** Superseded resolutions *)

Section StaleResults.
Variable Request : Type.
Variable Segment : Type.

Local Abbreviation State := (MapState Segment).
Local Abbreviation mstep := (@mobile_step Request Segment).

Lemma in_cancel (c : option nat) (ps : list Pending) (p' : Pending) :
  In p' (cancel c ps) ->
  exists p, In p ps /\ run_id p' = run_id p /\
            (cancelled p' = true \/ (p' = p /\ c <> Some (run_id p))).
Proof.
  unfold cancel. destruct c as [r |].
  - intros Hin. apply in_map_iff in Hin. destruct Hin as [p [E Hp]].
    exists p. split; [exact Hp |].
    destruct (Nat.eqb_spec (run_id p) r) as [Er | Er]; subst p'; cbn.
    + split; [reflexivity | left; reflexivity].
    + split; [reflexivity | right]. split; [reflexivity | congruence].
  - intros Hin. exists p'. split; [exact Hin |].
    split; [reflexivity | right]. split; [reflexivity | discriminate].
Qed.

Lemma in_drop_run (r : nat) (ps : list Pending) (p : Pending) :
  In p (drop_run r ps) -> In p ps.
Proof. unfold drop_run. intros H. apply filter_In in H. apply H. Qed.

Lemma cancel_all (s : State) :
  cancelled_unless_current s ->
  forall p, In p (cancel (cleanup s) (pending s)) -> cancelled p = true.
Proof.
  intros Inv p' Hin. destruct (in_cancel _ _ _ Hin) as [p [Hp [_ [C | [-> N]]]]].
  - exact C.
  - destruct (cancelled p) eqn:E; [reflexivity |].
    destruct N. apply Inv; assumption.
Qed.

Lemma mobile_step_invariant (s : State) (e : Event Request Segment) :
  cancelled_unless_current s -> cancelled_unless_current (mstep s e).
Proof.
  intros Inv. destruct e as [[q |] | r outcome]; cbn [mobile_step].
  - intros p Hin Hc. cbn [pending cleanup] in *.
    apply in_app_or in Hin. destruct Hin as [Hin | [<- | []]].
    + rewrite (cancel_all Inv _ Hin) in Hc. discriminate.
    + reflexivity.
  - intros p Hin Hc. cbn [pending cleanup] in *.
    rewrite (cancel_all Inv _ Hin) in Hc. discriminate.
  - destruct (in_flight r (pending s)) as [p0 |]; [| exact Inv].
    destruct (negb (cancelled p0)); intros p Hin Hc;
      cbn [pending cleanup] in *; apply Inv; try assumption;
      apply (in_drop_run _ _ _ Hin).
Qed.

Lemma mobile_reachable_invariant (events : list (Event Request Segment)) :
  forall s, cancelled_unless_current s ->
            cancelled_unless_current (fold_left mstep events s).
Proof.
  induction events as [| e events IH]; intros s Inv; cbn [fold_left].
  - exact Inv.
  - apply IH, mobile_step_invariant, Inv.
Qed.

Lemma mobile_nextRun_mono (s : State) (e : Event Request Segment) :
  (nextRun s <= nextRun (mstep s e))%nat.
Proof.
  destruct e as [[q |] | r outcome]; cbn [mobile_step nextRun]; try lia.
  destruct (in_flight r (pending s)) as [p0 |]; [| lia].
  destruct (negb (cancelled p0)); cbn [nextRun]; lia.
Qed.

Lemma render_makes_stale (s : State) (selected : option Request) (r : nat) :
  cancelled_unless_current s -> (r < nextRun s)%nat ->
  stale r (mstep s (Render Segment selected)).
Proof.
  intros Inv L. destruct selected as [q |]; cbn [mobile_step]; split;
    cbn [nextRun pending]; try lia.
  - intros p Hin Er. apply in_app_or in Hin. destruct Hin as [Hin | [<- | []]].
    + apply (cancel_all Inv _ Hin).
    + cbn in Er. lia.
  - intros p Hin _. apply (cancel_all Inv _ Hin).
Qed.

Lemma mobile_step_stale (s : State) (e : Event Request Segment) (r : nat) :
  stale r s -> stale r (mstep s e).
Proof.
  intros [L St]. split; [pose proof (mobile_nextRun_mono s e); lia |].
  destruct e as [[q |] | r' outcome]; cbn [mobile_step].
  - intros p Hin Er. cbn [pending] in Hin.
    apply in_app_or in Hin. destruct Hin as [Hin | [<- | []]].
    + destruct (in_cancel _ _ _ Hin) as [p0 [Hp0 [Eid [C | [-> _]]]]];
        [exact C | apply St; assumption].
    + cbn in Er. lia.
  - intros p Hin Er. cbn [pending] in Hin.
    destruct (in_cancel _ _ _ Hin) as [p0 [Hp0 [Eid [C | [-> _]]]]];
      [exact C | apply St; assumption].
  - destruct (in_flight r' (pending s)) as [p0 |]; [| exact St].
    destruct (negb (cancelled p0)); intros p Hin Er; cbn [pending] in Hin;
      apply St; try assumption; apply (in_drop_run _ _ _ Hin).
Qed.

Lemma mobile_stale_later (events : list (Event Request Segment)) (r : nat) :
  forall s, stale r s -> stale r (fold_left mstep events s).
Proof.
  induction events as [| e events IH]; intros s St; cbn [fold_left].
  - exact St.
  - apply IH, mobile_step_stale, St.
Qed.

Lemma mobile_settle_stale (s : State) (r : nat)
    (outcome : Completion (list Segment)) :
  stale r s ->
  routeSegments (mstep s (Settle Request r outcome)) = routeSegments s /\
  isLoadingRoute (mstep s (Settle Request r outcome)) = isLoadingRoute s.
Proof.
  intros [_ St]. cbn [mobile_step].
  destruct (in_flight r (pending s)) as [p |] eqn:E; [| split; reflexivity].
  unfold in_flight in E. apply find_some in E. destruct E as [Hin Er].
  apply Nat.eqb_eq in Er. rewrite (St p Hin Er). split; reflexivity.
Qed.

(** The mobile component: once the effect has run again, whatever a
    computation started before that run settles with leaves the displayed
    segments as they are. *)
Theorem mobile_discards_superseded
    (before later : list (Event Request Segment))
    (selected : option Request) (r : nat) (outcome : Completion (list Segment)) :
  (r < nextRun (after mstep before))%nat ->
  routeSegments
    (after mstep (before ++ Render Segment selected :: later
                  ++ [Settle Request r outcome]))
  = routeSegments (after mstep (before ++ Render Segment selected :: later)).
Proof.
  intros L. unfold after.
  replace (before ++ Render Segment selected :: later ++ [Settle Request r outcome])
    with ((before ++ Render Segment selected :: later) ++ [Settle Request r outcome])
    by (rewrite <- app_assoc; reflexivity).
  rewrite (fold_left_app mstep (before ++ Render Segment selected :: later)).
  cbn [fold_left]. apply mobile_settle_stale.
  rewrite fold_left_app. cbn [fold_left].
  apply mobile_stale_later, render_makes_stale; [| exact L].
  apply mobile_reachable_invariant. intros p [].
Qed.

End StaleResults.

Example mobile_commits_current (Request Segment : Type) (q : Request)
    (segments : list Segment) :
  routeSegments
    (after (@mobile_step Request Segment)
       [Render Segment (Some q); Settle Request 0 (Returned segments)])
  = segments.
Proof. reflexivity. Qed.

(** Claim C6.  The web component commits a superseded resolution.  Two
    resolutions are started one after the other (runs 0 and 1); the second
    settles first and its segments are displayed; when the first settles,
    its segments replace them.  The same happens after the selection was
    cleared.  The mobile component keeps the segments of the second
    resolution, and the empty list, in the same two interleavings. *)
Theorem web_commits_superseded (Request Segment : Type) (q1 q2 : Request)
    (segments1 segments2 : list Segment) :
  routeSegments
    (after (@web_step Request Segment)
       [Render Segment (Some q1); Render Segment (Some q2);
        Settle Request 1 (Returned segments2);
        Settle Request 0 (Returned segments1)])
  = segments1 /\
  routeSegments
    (after (@web_step Request Segment)
       [Render Segment (Some q1); Render Segment None;
        Settle Request 0 (Returned segments1)])
  = segments1 /\
  routeSegments
    (after (@mobile_step Request Segment)
       [Render Segment (Some q1); Render Segment (Some q2);
        Settle Request 1 (Returned segments2);
        Settle Request 0 (Returned segments1)])
  = segments2 /\
  routeSegments
    (after (@mobile_step Request Segment)
       [Render Segment (Some q1); Render Segment None;
        Settle Request 0 (Returned segments1)])
  = [].
Proof. repeat split. Qed.

(** ** Zero-duration legs *)

(** The guards that the code does have, in exact arithmetic: the total
    duration of a route option is at least 1, and a walk leg is at least 8
    wide before the final down-scale whatever its duration. *)
Lemma totalDuration_at_least_1 (plan : Plan Q) : (1 <= totalDuration plan)%Q.
Proof. unfold totalDuration. cbn [Math_max Number_Q ofZ]. apply Q.le_max_l. Qed.

Lemma walk_leg_at_least_8 (t : Q) (segs : list (PlanSegment Q)) :
  Forall (fun s => isTransit s = false -> (8 <= width s)%Q) (adjustedLayout t segs).
Proof.
  unfold adjustedLayout, adjustedWidths. rewrite Forall_forall.
  intros s Hs. apply in_map_iff in Hs. destruct Hs as [s' [<- _]].
  destruct (isTransit s') eqn:E; cbn [negb isTransit width].
  - rewrite E. discriminate.
  - intros _. cbn [Math_max Number_Q]. apply Q.le_max_r.
Qed.

(** Claim C1.  A plan with a five-minute walk followed by a transit leg
    whose duration is reported as 0: the total duration is 5, the raw
    widths are 100 and 0, the smallest transit width 0 is below the minimum,
    so the scale factor is [15 / 0 = Infinity]; the walk leg gets
    [100 * Infinity = Infinity] and the transit leg [0 * Infinity = NaN].
    The sum of the widths is [NaN], which is not above 100, so the last
    step leaves them as they are: the timeline hands [Infinity] and [NaN]
    to the view.  The same happens when the plan carries no estimated
    duration and the total is summed from the legs, and a plan made of one
    transit leg of duration 0 gets the width [NaN]. *)
Theorem zero_duration_transit_leg_gets_nan_width :
  map (@width float)
      (planLayout {| estimated_duration_minutes := 5%float;
                     segments := [leg walk 5%float; leg transit 0%float] |})
  = [infinity; nan] /\
  map (@width float)
      (planLayout {| estimated_duration_minutes := 0%float;
                     segments := [leg walk 5%float; leg transit 0%float] |})
  = [infinity; nan] /\
  map (@width float)
      (planLayout {| estimated_duration_minutes := 0%float;
                     segments := [leg transit 0%float] |})
  = [nan].
Proof. vm_compute. repeat split. Qed.

(** * Further properties *)

(** ** The mobile resolver under any routing service *)

Section ResolverAny.
Variable num : Type.
Variable osrm : OsrmService num.
Variable api : TripStopsApi num.
Variable stops : list (Stop num).

Lemma directRoute_returns (segment : PlanSegment num) :
  exists pts, directRoute osrm segment = Returned pts.
Proof. apply fetchOSRMRoute_returns. Qed.

Lemma convertSegment_returns (segments : list (RouteSegment num))
    (segment : PlanSegment num) :
  exists pts,
    convertSegment osrm api stops segments segment
    = Returned (segments ++ [ {| points := pts;
                                 color := segmentColor segment;
                                 isDashed := SegmentType_eqb (type segment) walk |} ]).
Proof.
  destruct (directRoute_returns segment) as [direct Hd].
  unfold convertSegment, segmentColor. destruct (type segment).
  - rewrite Hd. exists direct. reflexivity.
  - destruct (truthy_id (trip_id segment)) as [tripId |];
      [destruct (truthy_id (from_stop_id segment)) as [fromStopId |];
       [destruct (truthy_id (to_stop_id segment)) as [toStopId |] | ] | ];
      try (rewrite Hd; exists direct; reflexivity).
    rewrite getStopsBetween_unfold. cbn [bind].
    match goal with
    | |- context [(2 <=? List.length ?l)%nat] =>
        destruct (2 <=? List.length l)%nat
    end.
    + rewrite stitchStops_stitched. eexists. reflexivity.
    + rewrite Hd. exists direct. reflexivity.
Qed.

Lemma convertSegments_returns (rest : list (PlanSegment num)) :
  forall segments,
  exists renderables,
    convertSegments osrm api stops segments rest
    = Returned (segments ++ renderables) /\
    map (@color num) renderables = map (@segmentColor num) rest /\
    map (@isDashed num) renderables
    = map (fun segment => SegmentType_eqb (type segment) walk) rest.
Proof.
  induction rest as [| segment rest IH]; intros segments.
  - exists []. cbn. rewrite app_nil_r. repeat split.
  - destruct (convertSegment_returns segments segment) as [pts E].
    destruct (IH (segments ++ [ {| points := pts;
                                   color := segmentColor segment;
                                   isDashed := SegmentType_eqb (type segment) walk |} ]))
      as [rs [E' [Cs Ds]]].
    eexists (_ :: rs). cbn [convertSegments]. rewrite E. cbn [bind].
    rewrite E', <- app_assoc. cbn [app map color isDashed].
    split; [reflexivity |]. split; f_equal; assumption.
Qed.

(** Whatever the routing service and the stop listing answer,
    [convertPlanToSegments] settles with a value: one segment per leg of
    the plan, in the order of the legs, gray and dashed for a walk, blue
    and solid for a ride. *)
Theorem convertPlanToSegments_one_per_leg (plan : Plan num) :
  exists renderables,
    convertPlanToSegments osrm api stops plan = Returned renderables /\
    List.length renderables = List.length (segments plan) /\
    map (@color num) renderables = map (@segmentColor num) (segments plan) /\
    map (@isDashed num) renderables
    = map (fun segment => SegmentType_eqb (type segment) walk) (segments plan).
Proof.
  destruct (convertSegments_returns (segments plan) []) as [rs [E [Cs Ds]]].
  exists rs. split; [exact E |]. split; [| split; assumption].
  rewrite <- (length_map (@color num) rs), Cs. apply length_map.
Qed.

End ResolverAny.

(** ** Swapping the two stops *)

Lemma findIndex_lower {A} (p : A -> bool) (xs : list A) :
  (-1 <= findIndex p xs)%Z.
Proof.
  induction xs as [| x xs IH]; cbn [findIndex]; [lia |].
  destruct (p x); [lia |].
  destruct (Z.eqb_spec (findIndex p xs) (-1)); lia.
Qed.

Lemma slice_length {A} (xs : list A) (i j : Z) :
  (0 <= i)%Z -> (0 <= j)%Z ->
  (Z.of_nat (List.length (slice xs i j)) <= Z.max 0 (j - i))%Z.
Proof.
  intros Hi Hj. unfold slice. rewrite length_firstn.
  destruct (Z.ltb_spec i 0); [lia |].
  destruct (Z.ltb_spec j 0); lia.
Qed.

Lemma rev_short {A} (l : list A) : (List.length l <= 1)%nat -> rev l = l.
Proof.
  destruct l as [| a [| b l]]; cbn [List.length]; try reflexivity; lia.
Qed.

Section Reversal.
Variable num : Type.
Variable api : TripStopsApi num.

Lemma endpointStops_swap (a b : Z) (allStops : list (Stop num)) :
  endpointStops b a allStops = rev (endpointStops a b allStops).
Proof.
  unfold endpointStops.
  destruct (find (has_stop_id a) allStops), (find (has_stop_id b) allStops);
    reflexivity.
Qed.

(** Asking for the stops of a trip from [b] to [a] gives the stops from
    [a] to [b] in the opposite order, on the listing as well as in every
    fallback. *)
Theorem getStopsBetween_reversal (tripId a b : Z) (allStops : list (Stop num)) :
  exists routeStops,
    getStopsBetween api tripId a b allStops = Returned routeStops /\
    getStopsBetween api tripId b a allStops = Returned (rev routeStops).
Proof.
  rewrite !getStopsBetween_unfold. eexists. split; [reflexivity |].
  f_equal. cbv zeta.
  set (tripStops := tripListing api tripId).
  set (ia := findIndex (has_stop_id a) tripStops).
  set (ib := findIndex (has_stop_id b) tripStops).
  pose proof (findIndex_lower (has_stop_id a) tripStops) as La.
  pose proof (findIndex_lower (has_stop_id b) tripStops) as Lb.
  fold ia in La. fold ib in Lb.
  destruct (Nat.eqb (List.length tripStops) 0); [apply endpointStops_swap |].
  rewrite (orb_comm (ib =? -1)%Z).
  destruct (Z.eqb_spec ia (-1)) as [Ea | Ea]; [apply endpointStops_swap |].
  destruct (Z.eqb_spec ib (-1)) as [Eb | Eb]; [apply endpointStops_swap |].
  cbn [orb].
  destruct (Z.leb_spec ia ib) as [Lab | Lab], (Z.leb_spec ib ia) as [Lba | Lba];
    try lia.
  - assert (E : ia = ib) by lia. rewrite E. symmetry. apply rev_short.
    pose proof (@slice_length _ tripStops ib (ib + 1)). lia.
  - reflexivity.
  - symmetry. apply rev_involutive.
Qed.

End Reversal.

(** ** Stitching when the routing service is down *)

Section StitchDown.
Variable num : Type.
Variable osrm : OsrmService num.
Hypothesis down : forall a b c d, routeUnavailable (osrm a b c d) = true.

Lemma roadPoints_down (a b : Stop num) :
  roadPoints osrm a b = [stopPoint a; stopPoint b].
Proof.
  unfold roadPoints. rewrite fetchOSRMRoute_fallback by apply down.
  reflexivity.
Qed.

Lemma later_pieces_down (rest : list (Stop num)) :
  forall m,
    List.concat (map (skipn 1) (subPolylines osrm (m :: rest)))
    = map (@stopPoint num) rest.
Proof.
  induction rest as [| x rest IH]; intros m; [reflexivity |].
  change (subPolylines osrm (m :: x :: rest))
    with (roadPoints osrm m x :: subPolylines osrm (x :: rest)).
  cbn [map List.concat]. rewrite IH, roadPoints_down. reflexivity.
Qed.

(** With every routing call failing, the points stitched for a transit
    leg are the positions of its stops, one each, in order. *)
Theorem stitchStops_down (a b : Stop num) (rest : list (Stop num)) :
  stitchStops osrm 0 (a :: b :: rest) []
  = Returned (map (@stopPoint num) (a :: b :: rest)).
Proof.
  rewrite stitchStops_stitched.
  change (subPolylines osrm (a :: b :: rest))
    with (roadPoints osrm a b :: subPolylines osrm (b :: rest)).
  cbn [stitched]. rewrite later_pieces_down, roadPoints_down. reflexivity.
Qed.

End StitchDown.

Lemma stitchStops_down_witness :
  stitchStops unreachable 0 [stop2; stop1; stop0] []
  = Returned (map (@stopPoint Q) [stop2; stop1; stop0]).
Proof.
  apply (@stitchStops_down Q unreachable). intros a b c d. reflexivity.
Defined.

(** ** The two clients of the routing service *)

Section Clients.
Variable num : Type.
Variable osrm : OsrmService num.

Lemma osrmCoordinates_map {P1 P2} (convert : num * num -> P1) (h : P1 -> P2)
    (r : HttpResult (OsrmData num)) :
  osrmCoordinates (fun c => h (convert c)) r
  = match osrmCoordinates convert r with
    | Returned pts => Returned (map h pts)
    | Thrown e => Thrown e
    end.
Proof.
  unfold osrmCoordinates.
  destruct r as [| [] status [data |]]; cbn [negb bind]; try reflexivity.
  destruct (negb (String.eqb (code data) "Ok") || _); [reflexivity |].
  destruct (routes data) as [[| route rest] |]; try reflexivity.
  destruct (coordinates route); [| reflexivity].
  rewrite map_map. reflexivity.
Qed.

(** The web client and the mobile client draw the same geometry from the
    same answer, straight-line fallback included: the mobile points are
    the web points, pair by pair. *)
Theorem clients_agree (start end_ : num * num) :
  exists pts,
    fetchRouteFromOSRM osrm start end_ = Returned pts /\
    fetchOSRMRoute osrm (fst start) (snd start) (fst end_) (snd end_)
    = Returned (map (@toLatLng num) pts).
Proof.
  destruct start as [startLat startLng], end_ as [endLat endLng].
  unfold fetchRouteFromOSRM, fetchOSRMRoute. cbn [fst snd].
  replace (osrmCoordinates
             (fun '(lng, lat) => {| latitude := lat; longitude := lng |})
             (osrm startLng startLat endLng endLat))
    with (osrmCoordinates
            (fun c => toLatLng ((fun '(lng, lat) => (lat, lng)) c))
            (osrm startLng startLat endLng endLat)).
  - rewrite osrmCoordinates_map.
    destruct (osrmCoordinates _ _) as [pts | e]; eexists; split; reflexivity.
  - unfold osrmCoordinates.
    destruct (osrm startLng startLat endLng endLat) as [| [] status [data |]];
      cbn [negb bind]; try reflexivity.
    destruct (negb (String.eqb (code data) "Ok") || _); [reflexivity |].
    destruct (routes data) as [[| route rest] |]; try reflexivity.
    destruct (coordinates route); [| reflexivity].
    f_equal. apply map_ext. intros [lng lat]. reflexivity.
Qed.

(** When the call does not fail, the points are the coordinates of the
    first route of the answer, all of them and in order, each [[lng, lat]]
    pair turned into latitude and longitude; further routes are not
    read. *)
Theorem fetchOSRMRoute_geometry (fromLat fromLon toLat toLon : num) :
  routeUnavailable (osrm fromLon fromLat toLon toLat) = false ->
  exists coords,
    firstRouteCoordinates (osrm fromLon fromLat toLon toLat) = Some coords /\
    fetchOSRMRoute osrm fromLat fromLon toLat toLon
    = Returned (map (fun c => {| latitude := snd c; longitude := fst c |}) coords) /\
    fetchRouteFromOSRM osrm (fromLat, fromLon) (toLat, toLon)
    = Returned (map (fun c => (snd c, fst c)) coords).
Proof.
  unfold fetchOSRMRoute, fetchRouteFromOSRM, osrmCoordinates,
    routeUnavailable, firstRouteCoordinates.
  destruct (osrm fromLon fromLat toLon toLat) as [| [] status [data |]];
    cbn [negb orb bind]; try discriminate.
  destruct (negb (String.eqb (code data) "Ok")); cbn [orb]; [discriminate |].
  destruct (routes data) as [[| route rest] |]; try discriminate.
  destruct (coordinates route) as [coords |]; [| discriminate].
  intros _. exists coords. cbn [attempt].
  repeat split; f_equal; apply map_ext; intros [lng lat]; reflexivity.
Qed.

End Clients.

Lemma fetchOSRMRoute_geometry_witness :
  exists coords,
    firstRouteCoordinates (roadService 0 0 2 0) = Some coords /\
    fetchOSRMRoute roadService 0 0 0 2
    = Returned (map (fun c => {| latitude := snd c; longitude := fst c |}) coords) /\
    fetchRouteFromOSRM roadService (0, 0) (0, 2)
    = Returned (map (fun c => (snd c, fst c)) coords).
Proof.
  apply (@fetchOSRMRoute_geometry Q roadService 0 0 0 2). reflexivity.
Defined.

(** ** A transit leg without its stop listing *)

Section TransitDegraded.
Variable num : Type.
Variable osrm : OsrmService num.
Variable api : TripStopsApi num.
Variable stops : list (Stop num).
Local Open Scope completion_scope.

(** When the stop listing of the trip cannot be obtained, a transit leg is
    drawn with a single routing query: between the catalog positions of
    its two stops when the catalog knows both of them, and between the
    end coordinates of the leg itself otherwise. *)
Theorem transit_leg_single_query (segments : list (RouteSegment num))
    (segment : PlanSegment num) (tripId fromStopId toStopId : Z) :
  type segment = transit ->
  truthy_id (trip_id segment) = Some tripId ->
  truthy_id (from_stop_id segment) = Some fromStopId ->
  truthy_id (to_stop_id segment) = Some toStopId ->
  lookupFailed (api tripId) = true ->
  convertSegment osrm api stops segments segment
  = match find (has_stop_id fromStopId) stops,
          find (has_stop_id toStopId) stops with
    | Some fromStop, Some toStop =>
        points <- fetchOSRMRoute osrm (lat fromStop) (lon fromStop)
                                      (lat toStop) (lon toStop) ;;
        Returned (segments ++ [transitSegment points])
    | _, _ =>
        points <- fetchOSRMRoute osrm (from_lat segment) (from_lon segment)
                                      (to_lat segment) (to_lon segment) ;;
        Returned (segments ++ [transitSegment points])
    end.
Proof.
  intros Ht E1 E2 E3 Hfail.
  unfold convertSegment. rewrite Ht, E1, E2, E3.
  rewrite getStopsBetween_fallback
    by (left; apply lookupFailed_listing, Hfail).
  cbn [bind]. unfold endpointStops, directRoute.
  destruct (fetchOSRMRoute_returns osrm (from_lat segment) (from_lon segment)
              (to_lat segment) (to_lon segment)) as [direct Hd].
  destruct (find (has_stop_id fromStopId) stops) as [fromStop |],
           (find (has_stop_id toStopId) stops) as [toStop |];
    cbn [filter_Boolean List.length Nat.leb];
    try (rewrite Hd; reflexivity).
  rewrite stitchStops_step.
  destruct (fetchOSRMRoute_returns osrm (lat fromStop) (lon fromStop)
              (lat toStop) (lon toStop)) as [pts ->].
  reflexivity.
Qed.

End TransitDegraded.

Lemma transit_leg_single_query_witness :
  convertSegment roadService tripApi [stop0; stop1] []
    {| type := transit; from_lat := 5; from_lon := 5; to_lat := 6; to_lon := 6;
       duration_minutes := 4; from_stop_id := Some 1%Z; to_stop_id := Some 2%Z;
       trip_id := Some 8%Z |}
  = bind (fetchOSRMRoute roadService 0 0 0 2)
      (fun points => Returned ([] ++ [transitSegment points])).
Proof.
  apply (@transit_leg_single_query Q roadService tripApi [stop0; stop1] []
           _ 8%Z 1%Z 2%Z); reflexivity.
Defined.

(** ** The result of the latest run *)

Section CurrentRun.
Variable Request : Type.
Variable Segment : Type.

Local Abbreviation mstep' := (@mobile_step Request Segment).

Lemma mobile_step_started (s : MapState Segment) (e : Event Request Segment) :
  runs_started s -> runs_started (mstep' s e).
Proof.
  intros Inv. destruct e as [[q |] | r outcome]; cbn [mobile_step].
  - intros p Hin. cbn [pending nextRun] in *.
    apply in_app_or in Hin. destruct Hin as [Hin | [<- | []]].
    + destruct (in_cancel _ _ _ Hin) as [p0 [Hp0 [Eid _]]].
      rewrite Eid. specialize (Inv p0 Hp0). lia.
    + cbn. lia.
  - intros p Hin. cbn [pending nextRun] in *.
    destruct (in_cancel _ _ _ Hin) as [p0 [Hp0 [Eid _]]].
    rewrite Eid. apply Inv, Hp0.
  - destruct (in_flight r (pending s)) as [p0 |]; [| exact Inv].
    destruct (negb (cancelled p0)); intros p Hin; cbn [pending nextRun] in *;
      apply Inv, (in_drop_run _ _ _ Hin).
Qed.

Lemma mobile_reachable_started (events : list (Event Request Segment)) :
  forall s, runs_started s -> runs_started (fold_left mstep' events s).
Proof.
  induction events as [| e events IH]; intros s Inv; cbn [fold_left].
  - exact Inv.
  - apply IH, mobile_step_started, Inv.
Qed.

Lemma in_flight_new (ps : list Pending) (r : nat) (p : Pending) :
  (forall p0, In p0 ps -> (run_id p0 < r)%nat) -> run_id p = r ->
  in_flight r (ps ++ [p]) = Some p.
Proof.
  intros Hlt Er. unfold in_flight.
  induction ps as [| x ps IH]; cbn [app find].
  - rewrite Er, Nat.eqb_refl. reflexivity.
  - destruct (Nat.eqb_spec (run_id x) r) as [E | E].
    + specialize (Hlt x (or_introl eq_refl)). lia.
    + apply IH. intros p0 Hp0. apply Hlt. right. exact Hp0.
Qed.

Lemma in_flight_drop (ps : list Pending) (r r' : nat) :
  r' <> r -> in_flight r (drop_run r' ps) = in_flight r ps.
Proof.
  intros N. unfold in_flight, drop_run.
  induction ps as [| x ps IH]; cbn [filter find]; [reflexivity |].
  destruct (Nat.eqb_spec (run_id x) r') as [E | E]; cbn [negb find].
  - destruct (Nat.eqb_spec (run_id x) r) as [E' | E']; [congruence | exact IH].
  - destruct (Nat.eqb (run_id x) r); [reflexivity | exact IH].
Qed.

Lemma render_makes_current (s : MapState Segment) (q : Request) :
  runs_started s ->
  current (nextRun s) (mstep' s (Render Segment (Some q))).
Proof.
  intros Inv. cbn [mobile_step]. split; [reflexivity |].
  cbn [pending]. exists {| run_id := nextRun s; cancelled := false |}.
  split; [| reflexivity].
  apply in_flight_new; [| reflexivity].
  intros p0 Hin. destruct (in_cancel _ _ _ Hin) as [p1 [Hp1 [Eid _]]].
  rewrite Eid. apply Inv, Hp1.
Qed.

Lemma settle_another_keeps_current (s : MapState Segment)
    (e : Event Request Segment) (r : nat) :
  settles_another r e -> current r s -> current r (mstep' s e).
Proof.
  destruct e as [sel | r' outcome]; cbn [settles_another]; [intros [] |].
  intros N [Hc [p [Hp Hlive]]]. cbn [mobile_step].
  destruct (in_flight r' (pending s)) as [p0 |];
    [| split; [exact Hc | exists p; split; assumption]].
  destruct (negb (cancelled p0)); split; cbn [cleanup pending];
    try exact Hc; exists p; (split; [| exact Hlive]);
    rewrite in_flight_drop by exact N; exact Hp.
Qed.

Lemma settles_keep_current (later : list (Event Request Segment)) (r : nat) :
  Forall (settles_another r) later ->
  forall s, current r s -> current r (fold_left mstep' later s).
Proof.
  induction later as [| e later IH]; intros Hall s Hc; cbn [fold_left].
  - exact Hc.
  - inversion Hall; subst. apply IH; [assumption |].
    apply settle_another_keeps_current; assumption.
Qed.

(** The mobile component: the guard never withholds the result of the
    latest run.  After the effect has started a computation, and whichever
    other computations settle in the meantime, what that computation
    settles with is displayed (the empty list if it throws) and the loading
    flag is cleared. *)
Theorem mobile_commits_latest
    (before later : list (Event Request Segment)) (q : Request)
    (outcome : Completion (list Segment)) :
  let r := nextRun (after mstep' before) in
  Forall (settles_another r) later ->
  let s := after mstep' (before ++ Render Segment (Some q) :: later
                         ++ [Settle Request r outcome]) in
  routeSegments s = displayed outcome /\ isLoadingRoute s = false.
Proof.
  intros r Hlater s. subst s. unfold after.
  replace (before ++ Render Segment (Some q) :: later ++ [Settle Request r outcome])
    with ((before ++ Render Segment (Some q) :: later) ++ [Settle Request r outcome])
    by (rewrite <- app_assoc; reflexivity).
  rewrite (fold_left_app mstep' (before ++ Render Segment (Some q) :: later)).
  cbn [fold_left]. rewrite fold_left_app. cbn [fold_left].
  set (s' := fold_left mstep' later
               (mstep' (fold_left mstep' before (initial Segment))
                       (Render Segment (Some q)))).
  assert (Hc : current r s').
  { apply settles_keep_current; [exact Hlater |].
    apply render_makes_current, mobile_reachable_started. intros p []. }
  clearbody s'. destruct Hc as [_ [p [Hp Hlive]]].
  cbn [mobile_step]. rewrite Hp, Hlive. cbn [negb routeSegments isLoadingRoute].
  destruct outcome; split; reflexivity.
Qed.

End CurrentRun.

Lemma mobile_commits_latest_witness :
  let s := after (@mobile_step nat nat)
             ([Render nat (Some 1%nat)]
              ++ Render nat (Some 2%nat) :: [Settle nat 0 (Returned [10%nat])]
              ++ [Settle nat 1 (Returned [20%nat; 21%nat])]) in
  routeSegments s = [20%nat; 21%nat] /\ isLoadingRoute s = false.
Proof.
  apply (@mobile_commits_latest nat nat [Render nat (Some 1%nat)]
           [Settle nat 0 (Returned [10%nat])] 2%nat
           (Returned [20%nat; 21%nat])).
  repeat constructor. cbn. discriminate.
Defined.

Lemma mobile_discards_superseded_witness :
  routeSegments
    (after (@mobile_step nat nat)
       ([Render nat (Some 1%nat)] ++ Render nat None :: []
        ++ [Settle nat 0 (Returned [10%nat])]))
  = routeSegments
      (after (@mobile_step nat nat)
         ([Render nat (Some 1%nat)] ++ Render nat None :: [])).
Proof.
  apply (@mobile_discards_superseded nat nat [Render nat (Some 1%nat)] []
           None 0 (Returned [10%nat])).
  cbn. lia.
Defined.

(** ** More on the layout in exact arithmetic *)

Section LayoutMore.
Local Open Scope Q_scope.

Lemma fold_min_ge (b : Q) (ws : list Q) :
  forall w, b <= w -> Forall (fun x => b <= x) ws -> b <= fold_left Qmin ws w.
Proof.
  induction ws as [| x ws IH]; intros w Hw Hws; cbn [fold_left].
  - exact Hw.
  - inversion Hws; subst. apply IH; [| assumption].
    destruct (Q.min_spec w x) as [[_ E] | [_ E]]; rewrite E; assumption.
Qed.

Lemma smallestTransitWidth_ge (b : Q) (ws : list (Slot Q)) :
  b <= 15 ->
  Forall (fun s => isTransit s = true -> b <= width s) ws ->
  b <= smallestTransitWidth ws.
Proof.
  intros Hb Hall. unfold smallestTransitWidth.
  assert (Hf : Forall (fun x => b <= x) (map (@width Q) (filter (@isTransit Q) ws))).
  { rewrite Forall_forall in *. intros x Hx.
    apply in_map_iff in Hx. destruct Hx as [s [<- Hs]].
    apply filter_In in Hs. destruct Hs as [Hs Ht]. apply Hall; assumption. }
  destruct (map (@width Q) (filter (@isTransit Q) ws)) as [| w rest].
  - exact Hb.
  - inversion Hf; subst. cbn [Math_min Number_Q]. apply fold_min_ge; assumption.
Qed.

Lemma smallestTransitWidth_pos (ws : list (Slot Q)) :
  Forall (fun s => isTransit s = true -> 0 < width s) ws ->
  0 < smallestTransitWidth ws.
Proof.
  intros Hall. unfold smallestTransitWidth.
  assert (Hf : Forall (fun x => 0 < x) (map (@width Q) (filter (@isTransit Q) ws))).
  { rewrite Forall_forall in *. intros x Hx.
    apply in_map_iff in Hx. destruct Hx as [s [<- Hs]].
    apply filter_In in Hs. destruct Hs as [Hs Ht]. apply Hall; assumption. }
  destruct (map (@width Q) (filter (@isTransit Q) ws)) as [| w rest].
  - reflexivity.
  - inversion Hf; subst. cbn [Math_min Number_Q]. apply fold_min_pos; assumption.
Qed.

Lemma adjustedLayout_pos (t : Q) (segs : list (PlanSegment Q)) :
  Forall layable segs ->
  Forall (fun s => 0 < width s) (adjustedLayout t segs).
Proof.
  intros Hd.
  assert (Hraw : Forall (fun s => (isTransit s = true -> 0 < width s)
                                  /\ 0 <= width s)
                        (trueProportionalWidths t segs)).
  { unfold trueProportionalWidths. rewrite Forall_forall in *. intros s Hs.
    apply in_map_iff in Hs. destruct Hs as [seg [<- Hseg]].
    specialize (Hd seg Hseg). unfold layable in Hd.
    pose proof (safeTotalDuration_pos t) as Ht.
    cbn [width isTransit nmul ndiv ofZ Number_Q].
    destruct (type seg); cbn [SegmentType_eqb].
    - split; [discriminate |].
      apply Qmult_le_0_compat; [| discriminate].
      apply Qle_shift_div_l; [exact Ht | lraQ].
    - assert (0 < duration_minutes seg / safeTotalDuration t * inject_Z 100).
      { apply Qmult_lt_0_compat; [| reflexivity].
        apply Qlt_shift_div_l; [exact Ht | lraQ]. }
      split; [intros _; assumption | lraQ]. }
  assert (Hm : 0 < smallestTransitWidth (trueProportionalWidths t segs)).
  { apply smallestTransitWidth_pos. rewrite Forall_forall in *.
    intros s Hs. apply (Hraw s Hs). }
  destruct (scaleFactor_spec Hm) as [Hk _].
  unfold adjustedLayout, adjustedWidths, scaledWidths.
  rewrite map_map. rewrite Forall_forall in *. intros s Hs.
  apply in_map_iff in Hs. destruct Hs as [raw [<- Hin]].
  destruct (Hraw raw Hin) as [Htr Hnn].
  unfold scale. cbn [isTransit width].
  destruct (isTransit raw) eqn:Et; cbn [negb width nmul Number_Q].
  - apply Qmult_lt_0_compat; [apply Htr; reflexivity | exact Hk].
  - cbn [Math_max Number_Q]. unfold MIN_WALK_WIDTH_PERCENT. cbn [ofZ Number_Q].
    pose proof (Q.le_max_r
                  (width raw * scaleFactor (smallestTransitWidth
                                              (trueProportionalWidths t segs)))
                  (inject_Z 8)) as L.
    assert (H8 : 0 < inject_Z 8) by reflexivity. lraQ.
Qed.

(** In exact arithmetic, when every ride has a positive duration and no
    walk a negative one, every leg gets a width above 0, a walk of no
    duration included, and the widths sum to at most 100, the sum being
    taken by [sumWidths] and not by the accumulator of the code. *)
Theorem layout_widths_positive (t : Q) (segs : list (PlanSegment Q)) :
  Forall layable segs ->
  Forall (fun s => 0 < width s) (layout t segs) /\
  sumWidths (layout t segs) <= 100.
Proof.
  intros Hd.
  split; [| rewrite <- totalWidth_sumWidths; apply finalWidths_total].
  pose proof (adjustedLayout_pos t Hd) as Hpos.
  unfold layout, finalWidths. cbn [nltb ndiv ofZ Number_Q].
  destruct (Exact.Qltb (inject_Z 100) (totalWidth (adjustedLayout t segs))) eqn:E;
    [| exact Hpos].
  apply Qltb_true in E. change (inject_Z 100) with 100 in *.
  rewrite Forall_forall in *. intros s Hs.
  apply in_map_iff in Hs. destruct Hs as [a [<- Ha]].
  unfold scale. cbn [width nmul Number_Q].
  apply Qmult_lt_0_compat; [apply Hpos, Ha |].
  apply Qlt_shift_div_l; lraQ.
Qed.

Lemma layout_widths_positive_witness :
  Forall (fun s => 0 < width s) (layout 7 [leg walk 0; leg transit 7]) /\
  sumWidths (layout 7 [leg walk 0; leg transit 7]) <= 100.
Proof.
  apply (@layout_widths_positive 7 [leg walk 0; leg transit 7]).
  constructor; [unfold layable; cbn; discriminate |].
  constructor; [unfold layable; cbn; reflexivity | constructor].
Defined.

End LayoutMore.

Section LayoutProportions.
Local Open Scope Q_scope.

Lemma or_else_0 (d : Q) : or_else d (ofZ 0) == d.
Proof.
  unfold or_else. cbn [falsy ofZ Number_Q].
  destruct (Qeq_bool d 0) eqn:E; [| reflexivity].
  apply Qeq_bool_iff in E. rewrite E. reflexivity.
Qed.

Lemma sum_or_else (segs : list (PlanSegment Q)) :
  forall a,
    fold_left (fun sum segment =>
                 (sum + or_else (duration_minutes segment) (ofZ 0))%js) segs a
    == a + sumDurations segs.
Proof.
  induction segs as [| seg segs IH]; intros a; cbn [fold_left].
  - unfold sumDurations. cbn. ring.
  - rewrite IH. cbn [nadd Number_Q]. rewrite or_else_0.
    unfold sumDurations. cbn [map fold_right]. ring.
Qed.

Lemma totalWidth_raw_acc (t : Q) (segs : list (PlanSegment Q)) :
  forall a,
    fold_left (fun sum seg => (sum + width seg)%js)
              (trueProportionalWidths t segs) a
    == a + sumDurations segs / safeTotalDuration t * 100.
Proof.
  pose proof (safeTotalDuration_pos t) as Ht.
  induction segs as [| seg segs IH]; intros a;
    cbn [trueProportionalWidths map fold_left].
  - unfold sumDurations. cbn [map fold_right]. field.
    intros Z. rewrite Z in Ht. discriminate.
  - unfold trueProportionalWidths in IH. rewrite IH.
    cbn [width nadd nmul ndiv ofZ Number_Q].
    unfold sumDurations. cbn [map fold_right].
    change (inject_Z 100) with 100. field.
    intros Z. rewrite Z in Ht. discriminate.
Qed.

Lemma totalWidth_raw (t : Q) (segs : list (PlanSegment Q)) :
  totalWidth (trueProportionalWidths t segs)
  == sumDurations segs / safeTotalDuration t * 100.
Proof.
  unfold totalWidth. rewrite totalWidth_raw_acc.
  cbn [ofZ Number_Q]. change (inject_Z 0) with 0. ring.
Qed.

Lemma safeTotalDuration_id (t : Q) : 0 < t -> safeTotalDuration t = t.
Proof.
  intros Ht. unfold safeTotalDuration. cbn [nltb ofZ Number_Q].
  apply Qltb_true in Ht. change (inject_Z 0) with 0. rewrite Ht. reflexivity.
Qed.

Lemma totalDuration_of_legs (plan : Plan Q) :
  1 <= sumDurations (segments plan) ->
  (estimated_duration_minutes plan == 0 /\ segments plan <> [])
  \/ estimated_duration_minutes plan == sumDurations (segments plan) ->
  totalDuration plan == sumDurations (segments plan).
Proof.
  intros Hsum Hest. unfold totalDuration.
  pose proof (or_else_0 (estimated_duration_minutes plan)) as Htd.
  set (td := or_else (estimated_duration_minutes plan) (ofZ 0)) in *.
  cbn [falsy Math_max ofZ Number_Q].
  destruct (Qeq_bool td 0 && negb (Nat.eqb (List.length (segments plan)) 0))
    eqn:B.
  - rewrite Q.max_r; rewrite sum_or_else; change (inject_Z 0) with 0;
      change (inject_Z 1) with 1; lraQ.
  - destruct Hest as [[Z N] | Eq].
    + apply andb_false_iff in B. destruct B as [B | B].
      * apply Qeq_bool_neq in B. destruct B. rewrite Htd. exact Z.
      * destruct (segments plan); [destruct N; reflexivity | discriminate B].
    + rewrite Q.max_r; [rewrite Htd; exact Eq |].
      change (inject_Z 1) with 1. rewrite Htd, Eq. exact Hsum.
Qed.

(** When the total duration of a plan comes from its legs (the plan
    carries no estimate, or an estimate equal to their sum) and the legs
    last at least a minute together, the total stored with the option is
    that sum and the proportional widths of step 1 add up to 100. *)
Theorem proportional_widths_sum (plan : Plan Q) :
  1 <= sumDurations (segments plan) ->
  (estimated_duration_minutes plan == 0 /\ segments plan <> [])
  \/ estimated_duration_minutes plan == sumDurations (segments plan) ->
  totalDuration plan == sumDurations (segments plan) /\
  totalWidth (trueProportionalWidths (totalDuration plan) (segments plan))
  == 100.
Proof.
  intros Hsum Hest.
  pose proof (totalDuration_of_legs plan Hsum Hest) as Ht.
  split; [exact Ht |].
  rewrite totalWidth_raw, safeTotalDuration_id by lraQ.
  rewrite Ht. field. intros Z. rewrite Z in Hsum. lraQ.
Qed.

Lemma proportional_widths_sum_witness :
  totalDuration {| estimated_duration_minutes := 0;
                   segments := [leg walk 5; leg transit 20; leg walk 5] |}
  == sumDurations [leg walk 5; leg transit 20; leg walk 5] /\
  totalWidth
    (trueProportionalWidths
       (totalDuration {| estimated_duration_minutes := 0;
                         segments := [leg walk 5; leg transit 20; leg walk 5] |})
       [leg walk 5; leg transit 20; leg walk 5])
  == 100.
Proof.
  apply (@proportional_widths_sum
           {| estimated_duration_minutes := 0;
              segments := [leg walk 5; leg transit 20; leg walk 5] |}).
  - vm_compute. discriminate.
  - left. split; [reflexivity | discriminate].
Defined.

Lemma totalWidth_same (l l' : list (Slot Q)) :
  Forall2 same_slot l l' ->
  forall a a', a == a' ->
    fold_left (fun sum seg => (sum + width seg)%js) l a
    == fold_left (fun sum seg => (sum + width seg)%js) l' a'.
Proof.
  induction 1 as [| x y l l' [Hw _] _ IH]; intros a a' E; cbn [fold_left].
  - exact E.
  - apply IH. cbn [nadd Number_Q]. rewrite E, Hw. reflexivity.
Qed.

(** When the proportional widths are already legible (15 or more for
    every ride, 8 or more for every walk) and sum to at most 100, the
    layout changes none of them. *)
Theorem layout_keeps_legible_widths (t : Q) (segs : list (PlanSegment Q)) :
  Forall legible (trueProportionalWidths t segs) ->
  totalWidth (trueProportionalWidths t segs) <= 100 ->
  Forall2 same_slot (trueProportionalWidths t segs) (layout t segs).
Proof.
  intros Hleg Hsum.
  set (raw := trueProportionalWidths t segs) in *.
  assert (Hk : scaleFactor (smallestTransitWidth raw) = ofZ 1).
  { unfold scaleFactor, MIN_TRANSIT_WIDTH_PERCENT. cbn [nltb ofZ Number_Q].
    replace (Exact.Qltb (smallestTransitWidth raw) (inject_Z 15)) with false;
      [reflexivity |].
    symmetry. apply Qltb_false. change (inject_Z 15) with 15.
    apply smallestTransitWidth_ge; [lraQ |].
    rewrite Forall_forall in *. intros s Hs Ht.
    specialize (Hleg s Hs). unfold legible in Hleg. rewrite Ht in Hleg.
    exact Hleg. }
  assert (Hadj : Forall2 same_slot raw (adjustedLayout t segs)).
  { unfold adjustedLayout, adjustedWidths, scaledWidths. fold raw.
    rewrite Hk, map_map. apply Forall2_map_self.
    rewrite Forall_forall in *. intros s Hs.
    specialize (Hleg s Hs). unfold legible in Hleg.
    unfold same_slot, scale. cbn [isTransit width duration].
    destruct (isTransit s); cbn [negb isTransit width duration nmul ofZ Number_Q].
    - repeat split. change (inject_Z 1) with 1. ring.
    - repeat split. cbn [Math_max Number_Q].
      unfold MIN_WALK_WIDTH_PERCENT. cbn [ofZ Number_Q].
      change (inject_Z 1) with 1. change (inject_Z 8) with 8.
      rewrite Q.max_l; [ring | lraQ]. }
  assert (Htot : totalWidth (adjustedLayout t segs) == totalWidth raw).
  { unfold totalWidth. symmetry. apply totalWidth_same; [exact Hadj | reflexivity]. }
  unfold layout, finalWidths. cbn [nltb ofZ Number_Q].
  replace (Exact.Qltb (inject_Z 100) (totalWidth (adjustedLayout t segs)))
    with false; [exact Hadj |].
  symmetry. apply Qltb_false. change (inject_Z 100) with 100. lraQ.
Qed.

Lemma layout_keeps_legible_widths_witness :
  Forall2 same_slot
    (trueProportionalWidths 30 [leg walk 5; leg transit 20; leg walk 5])
    (layout 30 [leg walk 5; leg transit 20; leg walk 5]).
Proof.
  apply (@layout_keeps_legible_widths 30 [leg walk 5; leg transit 20; leg walk 5]).
  - repeat constructor; unfold legible; cbn; discriminate.
  - vm_compute. discriminate.
Defined.

End LayoutProportions.

(** ** The road-based resolver and the straight-line one *)

Section Degradation.
Variable num : Type.
Variable osrm : OsrmService num.
Variable api : TripStopsApi num.
Hypothesis down : forall a b c d, routeUnavailable (osrm a b c d) = true.
Hypothesis no_listing : forall tripId, lookupFailed (api tripId) = true.

Lemma convertSegment_straight (acc : list (RouteSegment num))
    (segment : PlanSegment num) :
  convertSegment osrm api [] acc segment
  = Returned (acc
              ++ StraightMap.convertPlanToSegments
                   {| estimated_duration_minutes := duration_minutes segment;
                      segments := [segment] |}).
Proof.
  assert (Hdirect : directRoute osrm segment
                    = Returned [ {| latitude := from_lat segment;
                                    longitude := from_lon segment |};
                                 {| latitude := to_lat segment;
                                    longitude := to_lon segment |} ])
    by (apply fetchOSRMRoute_fallback, down).
  unfold StraightMap.convertPlanToSegments. cbn [segments map].
  unfold convertSegment. destruct (type segment); cbn [SegmentType_eqb].
  - rewrite Hdirect. reflexivity.
  - destruct (truthy_id (trip_id segment)) as [tripId |];
      [destruct (truthy_id (from_stop_id segment)) as [fromStopId |];
       [destruct (truthy_id (to_stop_id segment)) as [toStopId |] | ] | ];
      try (rewrite Hdirect; reflexivity).
    rewrite getStopsBetween_fallback
      by (left; apply lookupFailed_listing, no_listing).
    cbn [bind endpointStops find filter_Boolean List.length Nat.leb].
    rewrite Hdirect. reflexivity.
Qed.

(** With the routing service down, no stop listing and no stop catalog,
    the road-based resolver of the mobile map draws exactly what the
    earlier straight-line version draws: for every leg the line between
    its two end coordinates, in the same colours. *)
Theorem resolver_degrades_to_straight_lines (plan : Plan num) :
  convertPlanToSegments osrm api [] plan
  = Returned (StraightMap.convertPlanToSegments plan).
Proof.
  unfold convertPlanToSegments, StraightMap.convertPlanToSegments.
  assert (H : forall rest acc,
             convertSegments osrm api [] acc rest
             = Returned (acc ++ StraightMap.convertPlanToSegments
                                  {| estimated_duration_minutes :=
                                       estimated_duration_minutes plan;
                                     segments := rest |})).
  { induction rest as [| segment rest IH]; intros acc.
    - cbn. rewrite app_nil_r. reflexivity.
    - cbn [convertSegments]. rewrite convertSegment_straight. cbn [bind].
      rewrite IH. unfold StraightMap.convertPlanToSegments.
      cbn [segments map]. rewrite <- app_assoc. reflexivity. }
  rewrite H. reflexivity.
Qed.

End Degradation.

Lemma resolver_degrades_to_straight_lines_witness :
  convertPlanToSegments unreachable (fun _ => Unreachable) []
    {| estimated_duration_minutes := 12;
       segments :=
         [ leg walk 2;
           {| type := transit; from_lat := 0; from_lon := 0;
              to_lat := 0; to_lon := 3; duration_minutes := 10;
              from_stop_id := Some 1%Z; to_stop_id := Some 3%Z;
              trip_id := Some 7%Z |} ] |}
  = Returned
      [ {| points := [point 0 0; point 0 0]; color := "#6b7280"; isDashed := true |};
        {| points := [point 0 0; point 0 3]; color := "#3b82f6"; isDashed := false |} ].
Proof.
  apply (@resolver_degrades_to_straight_lines Q unreachable (fun _ => Unreachable));
    intros; reflexivity.
Defined.

(** ** The fitted region *)

Section FittedRegion.
Local Open Scope Q_scope.

Lemma fold_max_ge (ws : list Q) :
  forall w, w <= fold_left Qmax ws w /\
            Forall (fun x => x <= fold_left Qmax ws w) ws.
Proof.
  induction ws as [| x ws IH]; intros w; cbn [fold_left].
  - split; [lraQ | constructor].
  - destruct (IH (Qmax w x)) as [L1 L2].
    pose proof (Q.le_max_l w x). pose proof (Q.le_max_r w x).
    split; [lraQ |]. constructor; [lraQ | exact L2].
Qed.

Lemma spread_bounds (inf : Q) (xs : list Q) (x : Q) :
  In x xs -> Math_min_spread inf xs <= x /\ x <= Math_max_spread inf xs.
Proof.
  destruct xs as [| a rest]; [intros [] |].
  cbn [Math_min_spread Math_max_spread Math_min Math_max Number_Q].
  destruct (fold_min_le rest a) as [N1 N2].
  destruct (fold_max_ge rest a) as [M1 M2].
  rewrite Forall_forall in N2, M2.
  intros [<- | Hin]; split; auto.
Qed.

Lemma centered (lo hi x : Q) :
  lo <= x -> x <= hi ->
  let delta := Qmax ((hi - lo) * (3 / 2)) (1 / 100) in
  (lo + hi) / 2 - delta / 3 <= x /\ x <= (lo + hi) / 2 + delta / 3 /\
  1 / 100 <= delta.
Proof.
  intros L H delta.
  pose proof (Q.le_max_l ((hi - lo) * (3 / 2)) (1 / 100)).
  pose proof (Q.le_max_r ((hi - lo) * (3 / 2)) (1 / 100)).
  fold delta in H0, H1.
  assert (E1 : (lo + hi) / 2 == (lo + hi) * (1 # 2)) by field.
  assert (E2 : delta / 3 == delta * (1 # 3)) by field.
  assert (E3 : (hi - lo) * (3 / 2) == (hi - lo) * (3 # 2)) by field.
  assert (E4 : 1 / 100 == 1 # 100) by reflexivity.
  rewrite E1, E2, E4. rewrite E3 in H0. rewrite E4 in H1.
  repeat split; lraQ.
Qed.

(** In exact arithmetic the fitted region contains every point of the
    committed segments: each point lies within a third of the latitude
    and longitude spans from the centre, so inside the displayed span
    with a margin, and neither span is below 0.01. *)
Theorem fitted_region_contains_route (inf : Q)
    (segments : list (RouteSegment Q)) (p : LatLng Q) :
  In p (flat_map (@points Q) segments) ->
  let region := fitRegion inf segments in
  MapRegion.latitude region - MapRegion.latitudeDelta region / 3 <= latitude p /\
  latitude p <= MapRegion.latitude region + MapRegion.latitudeDelta region / 3 /\
  MapRegion.longitude region - MapRegion.longitudeDelta region / 3 <= longitude p /\
  longitude p <= MapRegion.longitude region + MapRegion.longitudeDelta region / 3 /\
  1 / 100 <= MapRegion.latitudeDelta region /\
  1 / 100 <= MapRegion.longitudeDelta region.
Proof.
  intros Hin region. subst region. unfold fitRegion.
  cbn [MapRegion.latitude MapRegion.longitude MapRegion.latitudeDelta
       MapRegion.longitudeDelta].
  set (allPoints := flat_map (@points Q) segments) in *.
  destruct (spread_bounds inf (map (@latitude Q) allPoints) (latitude p))
    as [La Ha]; [apply in_map, Hin |].
  destruct (spread_bounds inf (map (@longitude Q) allPoints) (longitude p))
    as [Lo Ho]; [apply in_map, Hin |].
  cbn [nadd nsub nmul ndiv Math_max ofZ Number_Q].
  destruct (centered La Ha) as [A1 [A2 A3]].
  destruct (centered Lo Ho) as [B1 [B2 B3]].
  repeat split; assumption.
Qed.

End FittedRegion.

Lemma fitted_region_contains_route_witness :
  let region :=
    fitRegion 0%Q [ {| points := [point 0 0; point 0 1; point 0 2];
                       color := "#3b82f6"; isDashed := false |} ] in
  (MapRegion.latitude region - MapRegion.latitudeDelta region / 3 <= 0 /\
   0 <= MapRegion.latitude region + MapRegion.latitudeDelta region / 3 /\
   MapRegion.longitude region - MapRegion.longitudeDelta region / 3 <= 2 /\
   2 <= MapRegion.longitude region + MapRegion.longitudeDelta region / 3 /\
   1 / 100 <= MapRegion.latitudeDelta region /\
   1 / 100 <= MapRegion.longitudeDelta region)%Q.
Proof.
  apply (@fitted_region_contains_route 0%Q
           [ {| points := [point 0 0; point 0 1; point 0 2];
                color := "#3b82f6"; isDashed := false |} ] (point 0 2)).
  cbn. right. right. left. reflexivity.
Defined.

(** A plan without legs: nothing to fit, the centre of the region is not
    a number and its spans are 0.01. *)
Example fitted_region_of_nothing :
  fitRegion infinity (@nil (RouteSegment float))
  = {| MapRegion.latitude := nan; MapRegion.longitude := nan;
       MapRegion.latitudeDelta := 0x1.47ae147ae147bp-7%float;
       MapRegion.longitudeDelta := 0x1.47ae147ae147bp-7%float |}.
Proof. vm_compute. reflexivity. Qed.

(** ** Nearby routes *)

Section NearbyGrouping.
Import Nearby.

Lemma string_lt_irrefl (s : string) : string_lt s s = false.
Proof.
  unfold string_lt. destruct (String_as_OT.compare s s) eqn:E; try reflexivity.
  exfalso. apply (StrictOrder_Irreflexive (R := String_as_OT.lt) s). exact E.
Qed.

Lemma string_lt_trans (a b c : string) :
  string_lt a b = true -> string_lt b c = true -> string_lt a c = true.
Proof.
  unfold string_lt. intros Hab Hbc.
  assert (Lab : String_as_OT.lt a b)
    by (unfold String_as_OT.lt; destruct (String_as_OT.compare a b);
        [discriminate | reflexivity | discriminate]).
  assert (Lbc : String_as_OT.lt b c)
    by (unfold String_as_OT.lt; destruct (String_as_OT.compare b c);
        [discriminate | reflexivity | discriminate]).
  pose proof (StrictOrder_Transitive (R := String_as_OT.lt) a b c Lab Lbc) as L.
  unfold String_as_OT.lt in L. rewrite L. reflexivity.
Qed.

Lemma Map_has_in {V} (k : string) (m : list (string * V)) :
  Map_has k m = true <-> In k (map fst m).
Proof.
  unfold Map_has. rewrite existsb_exists. split.
  - intros [[k' v] [Hin E]]. cbn in E. apply String.eqb_eq in E. subst k'.
    apply (in_map fst) in Hin. exact Hin.
  - intros Hin. apply in_map_iff in Hin. destruct Hin as [[k' v] [E Hin]].
    cbn in E. subst k'. exists (k, v). split; [exact Hin |].
    cbn. apply String.eqb_refl.
Qed.

Lemma Map_get_unique {V} (k : string) (v : V) (m : list (string * V)) :
  NoDup (map fst m) -> In (k, v) m -> Map_get k m = Some v.
Proof.
  unfold Map_get. induction m as [| [k' v'] m IH]; cbn [map fst find In].
  - intros _ [].
  - intros Hnd Hin. inversion Hnd as [| ? ? Hnot Hnd']; subst.
    destruct (String.eqb_spec k' k) as [E | E].
    + subst k'. destruct Hin as [[= <-] | Hin]; [reflexivity |].
      exfalso. apply Hnot. apply (in_map fst) in Hin. exact Hin.
    + destruct Hin as [[= Ek _] | Hin]; [congruence |].
      apply IH; assumption.
Qed.

Lemma Map_get_some {V} (k : string) (m : list (string * V)) :
  In k (map fst m) -> exists v, Map_get k m = Some v /\ In (k, v) m.
Proof.
  unfold Map_get. induction m as [| [k' v'] m IH]; cbn [map fst find In].
  - intros [].
  - intros Hin. destruct (String.eqb_spec k' k) as [E | E].
    + subst k'. exists v'. split; [reflexivity | left; reflexivity].
    + destruct Hin as [Ek | Hin]; [congruence |].
      destruct (IH Hin) as [v [Hg Hv]]. exists v. split; [exact Hg | right; exact Hv].
Qed.

Lemma replace_keys {V} (k : string) (v : V) (m : list (string * V)) :
  map fst (map (fun entry => if String.eqb (fst entry) k then (k, v) else entry) m)
  = map fst m.
Proof.
  rewrite map_map. apply map_ext. intros [k' v']. cbn [fst].
  destruct (String.eqb_spec k' k) as [E | E]; [symmetry; exact E | reflexivity].
Qed.

Lemma replace_in {V} (k : string) (v : V) (m : list (string * V)) (k' : string)
    (v' : V) :
  In (k', v')
     (map (fun entry => if String.eqb (fst entry) k then (k, v) else entry) m) ->
  (k' = k /\ v' = v) \/ (k' <> k /\ In (k', v') m).
Proof.
  intros Hin. apply in_map_iff in Hin. destruct Hin as [[k0 v0] [E Hin]].
  cbn [fst] in E. destruct (String.eqb_spec k0 k) as [Ek | Ek].
  - injection E as <- <-. left. split; reflexivity.
  - injection E as <- <-. right. split; assumption.
Qed.

Lemma group_keeps (processed : list Trip) (m : list (string * Trip))
    (trip : Trip) :
  grouped processed m -> grouped (processed ++ [trip]) (group m trip).
Proof.
  intros [Hnd [Hent Hall]]. unfold group.
  set (key := route_short_name trip).
  destruct (Map_has key m) eqn:Hhas; cbn [negb].
  - apply Map_has_in in Hhas.
    destruct (Map_get_some key m Hhas) as [existing [Hg Hex]].
    rewrite Hg. destruct (Hent key existing Hex) as [Ename [Hproc Hmin]].
    destruct (string_lt (nearby_stop_arrival_time trip)
                        (nearby_stop_arrival_time existing)) eqn:Hlt.
    + unfold Map_set. rewrite (proj2 (Map_has_in key m) Hhas).
      split; [rewrite replace_keys; exact Hnd |]. split.
      * intros k v Hin. apply replace_in in Hin.
        destruct Hin as [[-> ->] | [Nk Hin]].
        -- split; [reflexivity |]. split; [apply in_or_app; right; left; reflexivity |].
           intros t Ht Et. apply in_app_or in Ht. destruct Ht as [Ht | [<- | []]].
           ++ destruct (string_lt (nearby_stop_arrival_time t)
                                  (nearby_stop_arrival_time trip)) eqn:Hlt';
                [| reflexivity].
              pose proof (string_lt_trans _ _ _ Hlt' Hlt) as Habs.
              rewrite (Hmin t Ht Et) in Habs. discriminate.
           ++ apply string_lt_irrefl.
        -- destruct (Hent k v Hin) as [En [Hp Hm]].
           split; [exact En |]. split; [apply in_or_app; left; exact Hp |].
           intros t Ht Et. apply in_app_or in Ht. destruct Ht as [Ht | [<- | []]].
           ++ apply Hm; assumption.
           ++ destruct Nk. symmetry. exact Et.
      * intros t Ht. rewrite replace_keys.
        apply in_app_or in Ht. destruct Ht as [Ht | [<- | []]];
          [apply Hall, Ht | exact Hhas].
    + split; [exact Hnd |]. split.
      * intros k v Hin. destruct (Hent k v Hin) as [En [Hp Hm]].
        split; [exact En |]. split; [apply in_or_app; left; exact Hp |].
        intros t Ht Et. apply in_app_or in Ht. destruct Ht as [Ht | [<- | []]].
        -- apply Hm; assumption.
        -- fold key in Et. subst k. rewrite <- Et in Hin.
           pose proof (Map_get_unique key v m Hnd Hin) as Hg'.
           rewrite Hg in Hg'. injection Hg' as <-. exact Hlt.
      * intros t Ht. apply in_app_or in Ht. destruct Ht as [Ht | [<- | []]];
          [apply Hall, Ht | exact Hhas].
  - assert (Hnot : ~ In key (map fst m)).
    { intros Hin. apply Map_has_in in Hin. congruence. }
    unfold Map_set. rewrite Hhas.
    split; [| split].
    + rewrite map_app. cbn [map fst].
      apply NoDup_app; [exact Hnd | repeat constructor; intros [] |].
      intros k Hin [<- | []]. apply Hnot, Hin.
    + intros k v Hin. apply in_app_or in Hin.
      destruct Hin as [Hin | [[= <- <-] | []]].
      * destruct (Hent k v Hin) as [En [Hp Hm]].
        split; [exact En |]. split; [apply in_or_app; left; exact Hp |].
        intros t Ht Et. apply in_app_or in Ht. destruct Ht as [Ht | [<- | []]].
        -- apply Hm; assumption.
        -- exfalso. apply Hnot. fold key in Et. rewrite Et.
           apply (in_map fst) in Hin. exact Hin.
      * split; [reflexivity |]. split; [apply in_or_app; right; left; reflexivity |].
        intros t Ht Et. apply in_app_or in Ht. destruct Ht as [Ht | [<- | []]].
        -- exfalso. apply Hnot. rewrite <- Et. apply Hall, Ht.
        -- apply string_lt_irrefl.
    + intros t Ht. rewrite map_app. apply in_or_app.
      apply in_app_or in Ht. destruct Ht as [Ht | [<- | []]].
      * left. apply Hall, Ht.
      * right. left. reflexivity.
Qed.

Lemma fold_group_keeps (trips : list Trip) :
  forall processed m,
    grouped processed m ->
    grouped (processed ++ trips) (fold_left group trips m).
Proof.
  induction trips as [| trip trips IH]; intros processed m G; cbn [fold_left].
  - rewrite app_nil_r. exact G.
  - replace (processed ++ trip :: trips) with ((processed ++ [trip]) ++ trips)
      by (rewrite <- app_assoc; reflexivity).
    apply IH, group_keeps, G.
Qed.

Lemma grouped_all (trips : list Trip) :
  grouped trips (fold_left group trips []).
Proof.
  apply (@fold_group_keeps trips [] []).
  split; [constructor |]. split; [intros k v [] | intros t []].
Qed.

End NearbyGrouping.

Lemma slice_from_0 {A} (xs : list A) (n : nat) :
  slice xs 0 (Z.of_nat n) = firstn n xs.
Proof.
  unfold slice. cbn [Z.ltb Z.compare].
  destruct (Z.ltb_spec (Z.of_nat n) 0); [lia |].
  replace (Z.to_nat (Z.min 0 (Z.of_nat (List.length xs)))) with 0%nat by lia.
  cbn [skipn].
  destruct (Nat.le_gt_cases n (List.length xs)) as [L | L].
  - f_equal. lia.
  - replace (Z.to_nat _) with (List.length xs) by lia.
    rewrite firstn_all, firstn_all2 by lia. reflexivity.
Qed.

Lemma in_firstn {A} (n : nat) (l : list A) (x : A) :
  In x (firstn n l) -> In x l.
Proof.
  intros H. rewrite <- (firstn_skipn n l). apply in_or_app. left. exact H.
Qed.

Lemma in_skipn {A} (n : nat) (l : list A) (x : A) :
  In x (skipn n l) -> In x l.
Proof.
  intros H. rewrite <- (firstn_skipn n l). apply in_or_app. right. exact H.
Qed.

Section NearbySorting.
Import Nearby.

Lemma insert_perm (item : RouteItem) (sorted : list RouteItem) :
  Permutation (insert item sorted) (item :: sorted).
Proof.
  induction sorted as [| other rest IH]; cbn [insert]; [reflexivity |].
  destruct (minutes item <? minutes other)%Z; [reflexivity |].
  rewrite IH. apply perm_swap.
Qed.

Lemma sort_perm_acc (items : list RouteItem) :
  forall acc,
    Permutation (fold_left (fun sorted item => insert item sorted) items acc)
                (acc ++ items).
Proof.
  induction items as [| item items IH]; intros acc; cbn [fold_left].
  - rewrite app_nil_r. reflexivity.
  - rewrite IH, insert_perm. apply Permutation_middle.
Qed.

Lemma sort_perm (items : list RouteItem) : Permutation (sort items) items.
Proof. apply (sort_perm_acc items []). Qed.

Lemma insert_ascending (item : RouteItem) (sorted : list RouteItem) :
  ascending sorted -> ascending (insert item sorted).
Proof.
  unfold ascending. induction sorted as [| other rest IH]; intros Hs;
    cbn [insert].
  - constructor; constructor.
  - inversion Hs as [| ? ? Hrest Hall]; subst.
    destruct (Z.ltb_spec (minutes item) (minutes other)) as [L | L].
    + constructor; [exact Hs |]. constructor; [lia |].
      rewrite Forall_forall in *. intros x Hx. specialize (Hall x Hx). lia.
    + constructor; [apply IH, Hrest |].
      rewrite Forall_forall in *. intros x Hx.
      apply (Permutation_in _ (insert_perm item rest)) in Hx.
      destruct Hx as [<- | Hx]; [lia | apply Hall, Hx].
Qed.

Lemma sort_ascending_acc (items : list RouteItem) :
  forall acc, ascending acc ->
    ascending (fold_left (fun sorted item => insert item sorted) items acc).
Proof.
  induction items as [| item items IH]; intros acc Ha; cbn [fold_left].
  - exact Ha.
  - apply IH, insert_ascending, Ha.
Qed.

Lemma sort_ascending (items : list RouteItem) : ascending (sort items).
Proof. apply sort_ascending_acc. constructor. Qed.

Lemma ascending_split (n : nat) (items : list RouteItem) :
  ascending items ->
  ascending (firstn n items) /\
  forall a b, In a (firstn n items) -> In b (skipn n items) ->
              (minutes a <= minutes b)%Z.
Proof.
  unfold ascending. revert items.
  induction n as [| n IH]; intros items Hs.
  - cbn. split; [constructor | intros a b []].
  - destruct items as [| x items]; cbn [firstn skipn].
    + split; [constructor | intros a b []].
    + inversion Hs as [| ? ? Hrest Hall]; subst.
      destruct (IH items Hrest) as [Hf Hcross].
      rewrite Forall_forall in Hall. split.
      * constructor; [exact Hf |]. rewrite Forall_forall.
        intros y Hy. apply Hall. apply (in_firstn _ _ _ Hy).
      * intros a b [<- | Ha] Hb.
        -- apply Hall. apply (in_skipn _ _ _ Hb).
        -- apply Hcross; assumption.
Qed.

Lemma NoDup_firstn {A} (n : nat) (l : list A) : NoDup l -> NoDup (firstn n l).
Proof.
  revert l. induction n as [| n IH]; intros l Hnd; [constructor |].
  destruct l as [| x l]; [constructor |].
  inversion Hnd; subst. cbn [firstn]. constructor; [| apply IH; assumption].
  intros Hin. apply in_firstn in Hin. contradiction.
Qed.

End NearbySorting.

Section NearbyRoutesShown.
Import Nearby.
Variable num : Type.
Variable stops : list (Stop num).
Variable minutesUntil : string -> Z.

Local Abbreviation item_of := (toRouteItem stops minutesUntil).

Lemma earliestTrips_names (trips : list Trip) :
  map route_short_name (earliestTrips trips) = map fst (fold_left group trips []).
Proof.
  unfold earliestTrips. rewrite map_map.
  destruct (grouped_all trips) as [_ [Hent _]].
  apply map_ext_in. intros [k v] Hin. cbn [fst snd]. apply (Hent k v Hin).
Qed.

(** The nearby routes shown: at most three, one per route name, in
    ascending order of the minutes until arrival; each is built from a
    trip of the input that no trip of the same route precedes in arrival
    time; and a route of the input that is not shown has its earliest trip
    no sooner than every route shown. *)
Theorem nearby_routes_shown (trips : list Trip) :
  let items := nearbyRoutes stops minutesUntil trips in
  (List.length items <= 3)%nat /\
  NoDup (map routeShortName items) /\
  ascending items /\
  (forall item, In item items ->
     item = item_of (trip item) /\ In (trip item) trips /\
     forall t, In t trips -> route_short_name t = routeShortName item ->
       string_lt (nearby_stop_arrival_time t)
                 (nearby_stop_arrival_time (trip item)) = false) /\
  (forall t, In t trips ->
     In (route_short_name t) (map routeShortName items)
     \/ exists g, In g (earliestTrips trips) /\
                  route_short_name g = route_short_name t /\
                  forall item, In item items ->
                    (minutes item <= minutesUntil (nearby_stop_arrival_time g))%Z).
Proof.
  intros items. subst items. unfold nearbyRoutes.
  change 3%Z with (Z.of_nat 3). rewrite slice_from_0.
  set (sorted := sort (map item_of (earliestTrips trips))).
  assert (Hperm : Permutation sorted (map item_of (earliestTrips trips)))
    by apply sort_perm.
  destruct (grouped_all trips) as [Hnd [Hent Hall]].
  destruct (ascending_split 3 (sort_ascending (map item_of (earliestTrips trips))))
    as [Hasc Hcross].
  fold sorted in Hasc, Hcross.
  assert (Hnames : NoDup (map routeShortName sorted)).
  { apply (Permutation_NoDup (l := map routeShortName
                                     (map item_of (earliestTrips trips)))).
    - apply Permutation_map. symmetry. exact Hperm.
    - rewrite map_map. cbn [routeShortName toRouteItem].
      rewrite earliestTrips_names. exact Hnd. }
  split; [apply firstn_le_length |].
  split; [rewrite <- firstn_map; apply NoDup_firstn, Hnames |].
  split; [exact Hasc |]. split.
  - intros item Hin. apply in_firstn in Hin.
    apply (Permutation_in _ Hperm) in Hin.
    apply in_map_iff in Hin. destruct Hin as [g [<- Hg]].
    cbn [trip toRouteItem routeShortName]. split; [reflexivity |].
    unfold earliestTrips in Hg. apply in_map_iff in Hg.
    destruct Hg as [[k v] [E Hkv]]. cbn [snd] in E. subst v.
    destruct (Hent k g Hkv) as [En [Hp Hm]].
    split; [exact Hp |]. intros t Ht Et. apply Hm; [exact Ht | congruence].
  - intros t Ht.
    pose proof (Hall t Ht) as Hkey. apply in_map_iff in Hkey.
    destruct Hkey as [[k g] [Ek Hkg]]. cbn [fst] in Ek. subst k.
    destruct (Hent _ g Hkg) as [En _].
    assert (Hg : In g (earliestTrips trips)).
    { unfold earliestTrips. apply in_map_iff. exists (route_short_name t, g).
      split; [reflexivity | exact Hkg]. }
    assert (Hs : In (item_of g) sorted).
    { apply (Permutation_in _ (Permutation_sym Hperm)). apply in_map, Hg. }
    rewrite <- (firstn_skipn 3 sorted) in Hs. apply in_app_or in Hs.
    destruct Hs as [Hs | Hs].
    + left. apply in_map_iff. exists (item_of g). split; [exact En | exact Hs].
    + right. exists g. split; [exact Hg |]. split; [exact En |].
      intros item Hitem. apply (Hcross item (item_of g) Hitem Hs).
Qed.

End NearbyRoutesShown.

(** ** Route options *)


Section RouteOptionsShown.
Local Open Scope Q_scope.
Variable departure : Plan Q -> string * Q.

Lemma mapi_plans (l : list (Plan Q)) :
  forall i, map (@Options.plan Q) (mapi_from (toRouteOption departure) i l) = l.
Proof.
  induction l as [| x l IH]; intros i; cbn [mapi_from map]; [reflexivity |].
  rewrite IH. reflexivity.
Qed.

Lemma layout_classes (t : Q) (segs : list (PlanSegment Q)) :
  map (@isTransit Q) (layout t segs)
  = map (fun segment => SegmentType_eqb (type segment) transit) segs.
Proof.
  unfold layout.
  destruct (finalWidths_fields (adjustedLayout t segs)) as [_ ->].
  apply adjustedLayout_fields.
Qed.

Lemma existsb_map {A B} (f : A -> B) (p : B -> bool) (l : list A) :
  existsb p (map f l) = existsb (fun x => p (f x)) l.
Proof.
  induction l as [| x l IH]; cbn [map existsb]; [reflexivity |].
  rewrite IH. reflexivity.
Qed.

(** The route options shown: at most three, built from the first plans
    with a transit leg in the planner's order, lettered A, B, C; none when
    planning fails.  Each option stores a total duration of at least 1 and
    its timeline has a transit segment. *)
Theorem route_options_shown (planned : Completion (list (Plan Q))) :
  let options := fetchRouteOptions departure planned in
  (List.length options <= 3)%nat /\
  map (@Options.plan Q) options
  = firstn 3 (match planned with
              | Returned plans => filter hasTransit plans
              | Thrown _ => []
              end) /\
  map (@Options.routeLetter Q) options
  = firstn (List.length options) ["A"; "B"; "C"]%string /\
  Forall (fun option =>
            hasTransit (Options.plan option) = true /\
            Options.totalDuration option = totalDuration (Options.plan option) /\
            1 <= Options.totalDuration option /\
            existsb (@isTransit Q) (planLayout (Options.plan option)) = true)
         options.
Proof.
  intros options. subst options. unfold fetchRouteOptions.
  destruct planned as [plans | e];
    [| cbn; repeat split; try lia; constructor].
  cbv zeta. change 3%Z with (Z.of_nat 3). rewrite slice_from_0.
  set (shown := firstn 3 (filter hasTransit plans)).
  assert (Hlen : (List.length shown <= 3)%nat) by apply firstn_le_length.
  assert (Hall : Forall (fun plan => hasTransit plan = true) shown).
  { rewrite Forall_forall. intros plan Hin. apply in_firstn in Hin.
    apply filter_In in Hin. apply Hin. }
  clearbody shown.
  split; [| split; [apply mapi_plans | split]].
  - rewrite <- (length_map (@Options.plan Q)), mapi_plans. exact Hlen.
  - destruct shown as [| a [| b [| c [| d shown]]]]; cbn in Hlen |- *;
      try reflexivity; lia.
  - assert (G : forall i, Forall
                 (fun option =>
                    hasTransit (Options.plan option) = true /\
                    Options.totalDuration option
                    = totalDuration (Options.plan option) /\
                    1 <= Options.totalDuration option /\
                    existsb (@isTransit Q) (planLayout (Options.plan option))
                    = true)
                 (mapi_from (toRouteOption departure) i shown)).
    { induction Hall as [| plan shown Hp _ IH]; intros i; cbn [mapi_from];
        constructor; [| apply IH; cbn in Hlen; lia].
      cbn [toRouteOption Options.plan Options.totalDuration].
      split; [exact Hp |]. split; [reflexivity |].
      split; [apply totalDuration_at_least_1 |].
      unfold planLayout.
      rewrite <- (existsb_map (@isTransit Q) (fun b => b)), layout_classes.
      rewrite existsb_map. exact Hp. }
    apply G.
Qed.

End RouteOptionsShown.

Example nearby_routes_sample :
  map (fun item => (Nearby.routeShortName item, Nearby.address item,
                    Nearby.minutes item))
      (Nearby.nearbyRoutes [stop0; stop1] sampleMinutes [tripA1; tripB1; tripA2])
  = [("B", "Unknown Stop", 2%Z); ("A", "Second", 5%Z)]%string.
Proof. reflexivity. Qed.

Example route_options_sample :
  map (fun option => (Options.routeLetter option, Qred (Options.totalDuration option)))
      (fetchRouteOptions (fun _ => ("8:00 AM"%string, 3%Q))
         (Returned [ {| estimated_duration_minutes := 0%Q;
                        segments := [leg walk 4%Q] |};
                     {| estimated_duration_minutes := 0%Q;
                        segments := [leg walk 4%Q; leg transit 6%Q] |};
                     {| estimated_duration_minutes := 25%Q;
                        segments := [leg transit 20%Q] |} ]))
  = [("A", 10%Q); ("B", 25%Q)]%string.
Proof. vm_compute. reflexivity. Qed.

(** ** The web resolver *)

Section WebResolver.
Context {num : Type} `{Number num} `{MathLibrary num}.
Variable osrm : OsrmService num.

(** The web resolver with a non-empty catalog and the routing service
    down: it settles with two segments, the straight line from the user to
    the stop that [findNearestBusStop] returns and the straight line from
    that stop to the destination. *)
Theorem web_resolver_down (catalog : list (Routes.BusStop num))
    (userLocation : num * num) (destination : Routes.Location num) :
  (forall a b c d, routeUnavailable (osrm a b c d) = true) ->
  catalog <> [] ->
  exists stop segments,
    Routes.findNearestBusStop catalog userLocation = Returned stop /\
    In stop catalog /\
    Routes.generateShuttleRoute osrm catalog userLocation destination
    = Returned segments /\
    map (@Routes.points num) segments
    = [ [userLocation; (Routes.lat stop, Routes.lng stop)];
        [(Routes.lat stop, Routes.lng stop);
         (Routes.lat destination, Routes.lng destination)] ].
Proof.
  intros down Hne.
  destruct (findNearestBusStop_nonempty userLocation Hne) as [stop [E Hin]].
  exists stop. eexists. split; [exact E |]. split; [exact Hin |].
  unfold Routes.generateShuttleRoute. rewrite E. cbn [bind].
  rewrite !fetchRouteFromOSRM_fallback by apply down.
  cbn [bind]. split; reflexivity.
Qed.

End WebResolver.

Lemma web_resolver_down_witness :
  exists stop segments,
    Routes.findNearestBusStop [stopA; stopB] (0%R, 0%R) = Returned stop /\
    In stop [stopA; stopB] /\
    Routes.generateShuttleRoute (fun _ _ _ _ => Unreachable) [stopA; stopB]
      (0%R, 0%R) stopB
    = Returned segments /\
    map (@Routes.points R) segments
    = [ [(0%R, 0%R); (Routes.lat stop, Routes.lng stop)];
        [(Routes.lat stop, Routes.lng stop);
         (Routes.lat stopB, Routes.lng stopB)] ].
Proof.
  apply (@web_resolver_down R _ _ (fun _ _ _ _ => Unreachable) [stopA; stopB]
           (0%R, 0%R) stopB).
  - intros a b c d. reflexivity.
  - discriminate.
Defined.

(** ** The route letter *)

Section RouteLetterShown.
Variable num : Type.

Lemma letter_index (segments : list (PlanSegment num)) :
  forall segIndex segment,
    nth_error segments segIndex = Some segment ->
    (SegmentType_eqb (type segment) transit
     && forallb (fun s => SegmentType_eqb (type s) walk)
                (firstn segIndex segments))
    = (Z.of_nat segIndex
       =? findIndex (fun s => SegmentType_eqb (type s) transit) segments)%Z.
Proof.
  induction segments as [| x segments IH]; intros i segment Hnth.
  - destruct i; discriminate.
  - pose proof (findIndex_lower (fun s => SegmentType_eqb (type s) transit)
                  segments) as Hlow.
    destruct i as [| i]; cbn [nth_error] in Hnth.
    + injection Hnth as <-. cbn [firstn forallb findIndex].
      rewrite andb_true_r.
      destruct (SegmentType_eqb (type x) transit); [reflexivity |].
      destruct (Z.eqb_spec (findIndex (fun s => SegmentType_eqb (type s) transit)
                              segments) (-1));
        symmetry; apply Z.eqb_neq; lia.
    + specialize (IH i segment Hnth). cbn [firstn forallb findIndex].
      destruct (type x) eqn:Ex; cbn [SegmentType_eqb andb].
      * rewrite IH.
        destruct (Z.eqb_spec (findIndex (fun s => SegmentType_eqb (type s) transit)
                                segments) (-1)) as [E | E].
        -- rewrite E. destruct (Z.eqb_spec (Z.of_nat i) (-1)); [lia |].
           symmetry. apply Z.eqb_neq. lia.
        -- destruct (Z.eqb_spec (Z.of_nat i)
                       (findIndex (fun s => SegmentType_eqb (type s) transit)
                          segments));
             symmetry; [apply Z.eqb_eq | apply Z.eqb_neq]; lia.
      * rewrite andb_false_r. symmetry. apply Z.eqb_neq. lia.
Qed.

(** The timeline of a route option shows the route letter on the first
    transit segment and on no other segment; without a transit segment no
    letter is shown. *)
Theorem route_letter_on_first_transit (segments : list (PlanSegment num))
    (segIndex : nat) (segment : PlanSegment num) :
  nth_error segments segIndex = Some segment ->
  showsLetter segments segment segIndex
  = (Z.of_nat segIndex
     =? findIndex (fun s => SegmentType_eqb (type s) transit) segments)%Z.
Proof.
  intros Hnth. unfold showsLetter. rewrite slice_from_0.
  rewrite <- (letter_index segments segIndex Hnth).
  destruct (SegmentType_eqb (type segment) transit); reflexivity.
Qed.

End RouteLetterShown.

Lemma route_letter_on_first_transit_witness :
  showsLetter [leg walk 2%Q; leg transit 9%Q; leg transit 4%Q] (leg transit 9%Q) 1
  = (Z.of_nat 1
     =? findIndex (fun s => SegmentType_eqb (type s) transit)
          [leg walk 2%Q; leg transit 9%Q; leg transit 4%Q])%Z.
Proof.
  apply (@route_letter_on_first_transit Q
           [leg walk 2%Q; leg transit 9%Q; leg transit 4%Q] 1 (leg transit 9%Q)).
  reflexivity.
Defined.
